(** * GPT-telegramus entry point (main.py) and the request-relay engine

    Part I embeds [main.py]: [logging_setup], [load_json], [exit_],
    [parse_args] and [main], as programs of a small monad over the process
    state.  The three classes [main] drives (Authenticator, AIHandler,
    BotHandler) live in modules that are not part of the embedded file; they
    are taken as parameters ([components]).

    Part II models the request-relay engine (RequestQueue, AIWorker) that the
    specification describes and whose code is not in [main.py]. *)

From Stdlib Require PrimFloat.
From stdpp Require Import base gmap strings list pretty.

Set Warnings "-register-all".

(** ** Python values decoded by [json.load] *)

(** [json.load] yields [None], [bool], [int], [float], [str], [list] and
    [dict] (keys are strings, insertion order kept). *)
Inductive json : Type :=
| PyNone
| PyBool (b : bool)
| PyInt (n : Z)
| PyFloat (x : PrimFloat.float)
| PyStr (s : string)
| PyList (l : list json)
| PyDict (d : list (string * json)).

(** [repr] of a float and of a string are builtins of the interpreter: the
    shortest round-trip decimal, and the quoted, escaped literal. *)
Class PyRepr := {
  repr_float : PrimFloat.float → string;
  repr_str : string → string
}.

(** ", ".join(l) *)
Fixpoint join_comma (l : list string) : string :=
  match l with
  | [] => ""
  | [x] => x
  | x :: rest => x +:+ ", " +:+ join_comma rest
  end.

Section Python.
Context `{PyRepr}.

(** [repr(v)] for a decoded JSON value. *)
Fixpoint py_repr (v : json) : string :=
  match v with
  | PyNone => "None"
  | PyBool true => "True"
  | PyBool false => "False"
  | PyInt n => pretty n
  | PyFloat x => repr_float x
  | PyStr s => repr_str s
  | PyList l => "[" +:+ join_comma (map py_repr l) +:+ "]"
  | PyDict d =>
      "{" +:+ join_comma (map (λ kv, repr_str kv.1 +:+ ": " +:+ py_repr kv.2) d) +:+ "}"
  end.

(** [str(v)]: [repr(v)], except that a string is itself. *)
Definition py_str (v : json) : string :=
  match v with
  | PyStr s => s
  | _ => py_repr v
  end.

End Python.

(** ** Exceptions, control outcomes, the process state *)

(** An instance of a class deriving from [Exception]: class name, message. *)
Inductive exn : Type := Exn (cls : string) (msg : string).

Inductive signal : Type := SIGINT | SIGTERM.

(** How a call ends. [Raise] carries exceptions deriving from [Exception];
    [SystemExit] and [KeyboardInterrupt] derive from [BaseException] only,
    so [except Exception] lets them through. *)
Inductive outcome (A : Type) : Type :=
| Return (a : A)
| Raise (e : exn)
| SystemExit (status : Z)
| KeyboardInterrupt
| Killed (sig : signal)
| Diverge.
Arguments Return {A} a.
Arguments Raise {A} e.
Arguments SystemExit {A} status.
Arguments KeyboardInterrupt {A}.
Arguments Killed {A} sig.
Arguments Diverge {A}.

(** References to class instances, and attribute values. *)
Definition loc := positive.

Inductive pyval : Type :=
| VJson (v : json)
| VRef (l : loc).

(** What [signal.getsignal(SIGINT)] can be: Python starts with
    [default_int_handler]; [signal.signal(signal.SIGINT, exit_)] would
    install [exit_]; a component may install its own. *)
Inductive sigint_handler : Type :=
| default_int_handler
| handler_exit_
| handler_of_component.

(** Disposition of SIGTERM: Python installs nothing, so [SIG_DFL] ends the
    process unless a component installed a handler or ignores it. *)
Inductive sigterm_disposition : Type :=
| SIG_DFL
| SIG_IGN
| sigterm_of_component.

(** The state the components share with [main]: instance attributes and
    the signal table. *)
Record world : Type := World {
  w_heap : gmap loc (gmap string pyval);
  w_sigint : sigint_handler;
  w_sigterm : sigterm_disposition
}.

Inductive level : Type := INFO | WARNING | ERROR.

Inductive log_msg : Type :=
| MsgText (s : string)
| MsgExc (e : exn).

(** What [main.py] itself does to the outside, in program order. *)
Inductive event : Type :=
| ELog (lvl : level) (msg : log_msg)
| EMakedirs (path : string)
| EOpenLog (path : string)
| ECall (callee : string) (args : list pyval)
| EReturn (callee : string)
| ETerminate (pid : Z).

(** A computation runs on a world and yields how it ended, the world it
    left and the events it emitted. *)
Definition M (A : Type) : Type := world → outcome A * world * list event.

Definition ret {A} (a : A) : M A := λ w, (Return a, w, []).

Definition bind {A B} (m : M A) (k : A → M B) : M B := λ w,
  match m w with
  | (Return a, w1, t1) => let '(o, w2, t2) := k a w1 in (o, w2, t1 ++ t2)
  | (Raise e, w1, t1) => (Raise e, w1, t1)
  | (SystemExit n, w1, t1) => (SystemExit n, w1, t1)
  | (KeyboardInterrupt, w1, t1) => (KeyboardInterrupt, w1, t1)
  | (Killed sg, w1, t1) => (Killed sg, w1, t1)
  | (Diverge, w1, t1) => (Diverge, w1, t1)
  end.

Notation "x <- m ;; k" := (bind m (λ x, k))
  (at level 100, m at next level, right associativity, only parsing).
Notation "m ;;; k" := (bind m (λ _, k))
  (at level 100, right associativity, only parsing).

Definition emit (e : event) : M unit := λ w, (Return tt, w, [e]).
Definition raise {A} (e : exn) : M A := λ w, (Raise e, w, []).

(** [try: body except Exception as e: handler(e)] *)
Definition try_except_Exception {A} (body : M A) (handler : exn → M A) : M A := λ w,
  match body w with
  | (Raise e, w1, t1) => let '(o, w2, t2) := handler e w1 in (o, w2, t1 ++ t2)
  | r => r
  end.

Definition outcome_of {A} (r : outcome A * world * list event) : outcome A := r.1.1.
Definition world_of {A} (r : outcome A * world * list event) : world := r.1.2.
Definition events_of {A} (r : outcome A * world * list event) : list event := r.2.

(** ** The environment of the process *)

(** What a file holds, as [json.load] sees it. *)
Inductive file_content : Type :=
| NotJson (e : exn)
| Json (v : json).

(** What [argparse] makes of the command line: it exits (status 0 for
    [--version] and [--help], 2 for a usage error), or it yields the values
    given for [--settings] and [--messages]. *)
Inductive argv_parse : Type :=
| ArgvExit (status : Z)
| ArgvOptions (settings messages : option string).

(** [env_sigterm_delivered]: a SIGTERM the process sends to itself reaches
    it. It does not while the signal is blocked, nor, at the default
    disposition, in the init process of a PID namespace. *)
Record env : Type := Env {
  env_open : string → exn + file_content;
  env_argv : argv_parse;
  env_environ : gmap string string;
  env_pid : Z;
  env_now : string;
  env_logs_dir_exists : bool;
  env_makedirs : option exn;
  env_open_log : option exn;
  env_sigterm_delivered : bool
}.

(** The classes of the modules Authenticator, AIHandler and BotHandler, the
    signal handlers they may install, and [type(obj).__name__] of their
    instances. *)
Record components : Type := Components {
  Authenticator_new : json → world → outcome loc * world;
  start_chatbot : loc → world → outcome unit * world;
  AIHandler_new : json → loc → world → outcome loc * world;
  thread_start : loc → world → outcome unit * world;
  BotHandler_new : json → json → loc → world → outcome loc * world;
  reply_thread_start : loc → world → outcome unit * world;
  bot_start : loc → world → outcome unit * world;
  on_sigint : world → outcome unit * world;
  on_sigterm : world → outcome unit * world;
  type_name : loc → world → string
}.

(** A call into a component: the call is an event, and so is its return. *)
Definition call {A} (callee : string) (args : list pyval)
    (f : world → outcome A * world) : M A := λ w,
  let '(o, w1) := f w in
  (o, w1, ECall callee args ::
          match o with Return _ => [EReturn callee] | _ => [] end).

(** ** main.py *)

Definition TELEGRAMUS_VERSION : string := "beta_1.8.0".
Definition LOGGING_LEVEL : level := INFO.
Definition SETTINGS_FILE : string := "settings.json".
Definition MESSAGES_FILE : string := "messages.json".
Definition LOGS_DIR : string := "logs".

Definition logging_info (s : string) : M unit := emit (ELog INFO (MsgText s)).
Definition logging_warning (s : string) : M unit := emit (ELog WARNING (MsgText s)).
Definition logging_error (msg : log_msg) : M unit := emit (ELog ERROR msg).

Section Program.
Context `{PyRepr}.
Variable E : env.
Variable C : components.

(** [logging_setup]: create the logs directory when missing, open the log
    file, install the handlers, log the test message. *)
Definition logging_setup : M unit :=
  (if env_logs_dir_exists E then ret tt
   else emit (EMakedirs LOGS_DIR) ;;;
        match env_makedirs E with Some e => raise e | None => ret tt end) ;;;
  emit (EOpenLog (LOGS_DIR +:+ "/" +:+ env_now E +:+ ".log")) ;;;
  match env_open_log E with Some e => raise e | None => ret tt end ;;;
  logging_info "logging setup is complete".

Definition open_ (file_name : string) : M file_content :=
  match env_open E file_name with
  | inl e => raise e
  | inr f => ret f
  end.

Definition json_load (f : file_content) : M json :=
  match f with
  | NotJson e => raise e
  | Json v => ret v
  end.

Definition is_not_None (v : json) : bool :=
  match v with PyNone => false | _ => true end.

(** [load_json(file_name)], lines 75-94. *)
Definition load_json (file_name : string) : M json :=
  try_except_Exception
    (logging_info ("Loading " +:+ file_name +:+ "...") ;;;
     messages_file <- open_ file_name ;;
     json_content <- json_load messages_file ;;
     (* messages_file.close() *)
     if is_not_None json_content && bool_decide (0 < String.length (py_str json_content))
     then logging_info ("Loaded json: " +:+ py_str json_content) ;;;
          ret json_content
     else logging_error (MsgText ("Error loading json data from file " +:+ file_name)) ;;;
          ret PyNone)
    (λ e, logging_error (MsgExc e) ;;; ret PyNone).

(** The namespace [parse_args] returns. *)
Record args : Type := Args { args_settings : string; args_messages : string }.

(** [os.getenv(key, default)] *)
Definition os_getenv (key dflt : string) : string :=
  default dflt (env_environ E !! key).

Definition sys_exit {A} (status : Z) : M A := λ w, (SystemExit status, w, []).

(** [parse_args()], lines 110-121: the defaults come from the environment
    variables, else from the constants. *)
Definition parse_args : M args :=
  let settings_default := os_getenv "TELEGRAMUS_SETTINGS_FILE" SETTINGS_FILE in
  let messages_default := os_getenv "TELEGRAMUS_MESSAGES_FILE" MESSAGES_FILE in
  match env_argv E with
  | ArgvExit status => sys_exit status
  | ArgvOptions s m =>
      ret (Args (default settings_default s) (default messages_default m))
  end.

Definition os_getpid : M Z := ret (env_pid E).

(** [psutil.Process(pid).terminate()]: SIGTERM to [pid]. Sent to the process
    itself, the signal acts before the call returns when it is delivered:
    the default disposition ends the process, a handler of a component
    runs. A signal that is ignored or not delivered leaves the process
    running. *)
Definition psutil_terminate (pid : Z) : M unit :=
  emit (ETerminate pid) ;;;
  if bool_decide (pid = env_pid E) && env_sigterm_delivered E then
    λ w, match w_sigterm w with
         | SIG_DFL => (Killed SIGTERM, w, [])
         | SIG_IGN => (Return tt, w, [])
         | sigterm_of_component => let '(o, w1) := on_sigterm C w in (o, w1, [])
         end
  else ret tt.

(** [exit_(signum, frame)], lines 97-107. *)
Definition exit_ (signum frame : pyval) : M unit :=
  logging_warning "Killing all threads..." ;;;
  current_system_pid <- os_getpid ;;
  psutil_terminate current_system_pid ;;;
  sys_exit 0.

(** [signal.signal(signal.SIGINT, exit_)]: line 133, which the source has
    commented out; [main] below does not run it. *)
Definition connect_interrupt_signal : M unit := λ w,
  (Return tt, World (w_heap w) handler_exit_ (w_sigterm w), []).

(** Delivery of SIGINT to the main thread. *)
Definition deliver_sigint : M unit := λ w,
  match w_sigint w with
  | default_int_handler => (KeyboardInterrupt, w, [])
  | handler_exit_ => exit_ (VJson (PyInt 2)) (VJson PyNone) w
  | handler_of_component => let '(o, w1) := on_sigint C w in (o, w1, [])
  end.

(** The message of the AttributeError of a failed attribute lookup. *)
Definition no_attribute_message (cls name : string) : string :=
  "'" +:+ cls +:+ "' object has no attribute '" +:+ name +:+ "'".

(** [obj.name]: AttributeError when the instance has no such attribute. *)
Definition getattr (obj : loc) (name : string) : M pyval := λ w,
  match w_heap w !! obj ≫= lookup name with
  | Some v => (Return v, w, [])
  | None =>
      (Raise (Exn "AttributeError" (no_attribute_message (type_name C obj w) name)),
       w, [])
  end.

(** [obj.name = v] *)
Definition setattr (obj : loc) (name : string) (v : pyval) : M unit := λ w,
  (Return tt,
   World (<[obj := <[name := v]> (default ∅ (w_heap w !! obj))]> (w_heap w))
         (w_sigint w) (w_sigterm w),
   []).

(** [main()], lines 129-146: logging, arguments, the two files, the three
    instances, and the queue of the bot handler given to the AI handler. *)
Definition main_wiring : M (loc * loc * loc) :=
  logging_setup ;;;
  (* #signal.signal(signal.SIGINT, exit_) *)
  args <- parse_args ;;
  settings <- load_json (args_settings args) ;;
  messages <- load_json (args_messages args) ;;
  authenticator <-
    call "Authenticator.Authenticator" [VJson settings]
         (Authenticator_new C settings) ;;
  ai_handler <-
    call "AIHandler.AIHandler" [VJson settings; VRef authenticator]
         (AIHandler_new C settings authenticator) ;;
  bot_handler <-
    call "BotHandler.BotHandler" [VJson settings; VJson messages; VRef ai_handler]
         (BotHandler_new C settings messages ai_handler) ;;
  requests_queue <- getattr bot_handler "requests_queue" ;;
  setattr ai_handler "requests_queue" requests_queue ;;;
  ret (authenticator, ai_handler, bot_handler).

(** [main()], lines 148-161: the four start calls, then [exit_(None, None)]. *)
Definition main_startup (objs : loc * loc * loc) : M unit :=
  let '(authenticator, ai_handler, bot_handler) := objs in
  call "Authenticator.start_chatbot" [VRef authenticator]
       (start_chatbot C authenticator) ;;;
  call "AIHandler.thread_start" [VRef ai_handler]
       (thread_start C ai_handler) ;;;
  call "BotHandler.reply_thread_start" [VRef bot_handler]
       (reply_thread_start C bot_handler) ;;;
  call "BotHandler.bot_start" [VRef bot_handler]
       (bot_start C bot_handler) ;;;
  exit_ (VJson PyNone) (VJson PyNone).

Definition main : M unit :=
  objs <- main_wiring ;;
  main_startup objs.

End Program.

(** * Part II: the request-relay engine *)

Module Engine.

(** Modelled from the spec: the Request of section 3 (the code of the
    handlers that build it is not in main.py). *)
Record Request : Type := mkRequest {
  request_id : nat;
  origin_context : string;
  payload : string;
  enqueue_timestamp : nat
}.

#[export] Instance Request_eq_dec : EqDecision Request.
Proof. solve_decision. Defined.

(** Modelled from the spec: the error descriptors a Response can carry
    (section 7: BackendTerminal, RetriesExhausted). *)
Inductive error_descriptor : Type :=
| BackendTerminal (reason : string)
| RetriesExhausted.

(** Modelled from the spec: the result of a Response (section 3), a success
    payload or an error descriptor. *)
Inductive result : Type :=
| Success (text : string)
| Failure (e : error_descriptor).

(** Modelled from the spec: the Response of section 3, without its
    completion timestamp (time is not modelled). *)
Record Response : Type := mkResponse {
  response_to : nat;
  response_result : result
}.

(** Modelled from the spec: the AI-backend collaborator of section 6,
    [complete(payload, timeout) -> Result<text, BackendError>], the error
    tagged retryable or terminal. *)
Inductive BackendError : Type :=
| Retryable (reason : string)
| Terminal (reason : string).

(** Modelled from the spec: [Result<text, BackendError>] (section 6). *)
Definition backend_reply : Type := string + BackendError.

(** Modelled from the spec: the RequestQueue of section 4.2, a FIFO with an
    optional capacity and an explicit shutdown. *)
Record RequestQueue : Type := mkQueue {
  items : list Request;
  capacity : option nat;
  closed : bool
}.

(** Modelled from the spec: the error of [enqueue] (sections 4.2 and 7). *)
Inductive QueueFull : Type := queue_full.

(** Modelled from the spec: the capacity policy of section 4.2; an
    unbounded queue is never full. *)
Definition is_full (q : RequestQueue) : bool :=
  match capacity q with
  | Some c => bool_decide (c ≤ length (items q))
  | None => false
  end.

(** Modelled from the spec: [enqueue(Request) -> Result<(), QueueFull>]; a
    full queue refuses at once, and no enqueue succeeds after shutdown. *)
Definition enqueue (r : Request) (q : RequestQueue) : (unit + QueueFull) * RequestQueue :=
  if closed q || is_full q then (inr queue_full, q)
  else (inl tt, mkQueue (items q ++ [r]) (capacity q) (closed q)).

(** Modelled from the spec: what [dequeue()] gives its caller (section
    4.2): an item, the termination signal, or nothing yet (the caller
    stays blocked). *)
Inductive dequeued : Type :=
| Item (r : Request)
| Terminated
| WouldBlock.

(** Modelled from the spec: [dequeue()] of section 4.2 hands out the oldest
    item; on an empty queue the caller blocks, or gets the termination
    signal once the queue is shut down. *)
Definition dequeue (q : RequestQueue) : dequeued * RequestQueue :=
  match items q with
  | r :: rest => (Item r, mkQueue rest (capacity q) (closed q))
  | [] => (if closed q then Terminated else WouldBlock, q)
  end.

(** Modelled from the spec: [shutdown()] of section 4.2. *)
Definition shutdown (q : RequestQueue) : RequestQueue :=
  mkQueue (items q) (capacity q) true.

(** Modelled from the spec: the current depth the engine exposes for
    backpressure decisions (section 4.2). *)
Definition depth (q : RequestQueue) : nat := length (items q).

(** Modelled from the spec: the per-request state machine of section 4.3,
    [Queued -> Processing -> {Succeeded, Retrying -> Processing, Failed}];
    a worker is idle, holds a request with the attempts made so far, or
    has left its loop after the termination signal. *)
Inductive worker_state : Type :=
| Idle
| Processing (r : Request) (attempts : nat)
| Stopped.

(** Modelled from the spec: what the AIWorker does with a backend reply:
    success and terminal errors produce the Response at once, a retryable
    error goes back to Processing with one more attempt counted. *)
Definition on_reply (r : Request) (attempts : nat) (reply : backend_reply)
    : worker_state * option Response :=
  match reply with
  | inl text => (Idle, Some (mkResponse (request_id r) (Success text)))
  | inr (Terminal reason) =>
      (Idle, Some (mkResponse (request_id r) (Failure (BackendTerminal reason))))
  | inr (Retryable _) => (Processing r (S attempts), None)
  end.

(** Modelled from the spec: after exhausting the retries the worker
    produces a Response carrying a terminal error descriptor. *)
Definition exhausted_response (r : Request) : Response :=
  mkResponse (request_id r) (Failure RetriesExhausted).

(** Modelled from the spec: the AIWorker's handling of one request against
    a backend, [remaining] attempts left and [attempts] already made; the
    backend sees the number of earlier invocations (a fake backend that
    counts them). Returns the Response and the number of invocations. *)
Fixpoint process_request (backend : nat → string → backend_reply) (r : Request)
    (remaining attempts : nat) : Response * nat :=
  match remaining with
  | 0 => (exhausted_response r, attempts)
  | S k =>
      match on_reply r attempts (backend attempts (payload r)) with
      | (_, Some resp) => (resp, S attempts)
      | (_, None) => process_request backend r k (S attempts)
      end
  end.

(** Modelled from the spec: the AIWorker on one dequeued request, with the
    configured maximum attempt count (section 4.3). *)
Definition AIWorker_process (max_attempts : nat)
    (backend : nat → string → backend_reply) (r : Request) : Response * nat :=
  process_request backend r max_attempts 0.

(** Modelled from the spec: the engine of section 5 as an interleaving of
    atomic actions of N producers and M workers on one queue and one reply
    channel. *)
Record state : Type := mkState {
  rq : RequestQueue;
  workers : list worker_state;
  reply_channel : list Response
}.

(** Modelled from the spec: the atomic actions of section 5. A producer
    enqueues a request or is refused ([QueueFull]); a worker dequeues,
    invokes the backend and gets its reply, gives up once the attempts are
    used up, or leaves its loop on the termination signal; the supervisor
    shuts the queue down. *)
Inductive label : Type :=
| LEnqueue (producer : nat) (r : Request)
| LQueueFull (producer : nat) (r : Request)
| LDequeue (w : nat) (r : Request)
| LInvoke (w : nat) (reply : backend_reply)
| LGiveUp (w : nat)
| LStop (w : nat)
| LShutdown.

(** Modelled from the spec: the engine as the supervisor starts it (section
    4.5): an empty open queue, [M] idle workers, no response yet. *)
Definition init (cap : option nat) (M : nat) : state :=
  mkState (mkQueue [] cap false) (replicate M Idle) [].

(** Modelled from the spec: the effect of one action, [None] when the
    action is not possible in the state (sections 4.2 and 4.3). *)
Definition step (max_attempts : nat) (s : state) (l : label) : option state :=
  match l with
  | LEnqueue _ r =>
      match enqueue r (rq s) with
      | (inl _, q) => Some (mkState q (workers s) (reply_channel s))
      | (inr _, _) => None
      end
  | LQueueFull _ r =>
      match enqueue r (rq s) with
      | (inl _, _) => None
      | (inr _, _) => Some s
      end
  | LDequeue w r =>
      match workers s !! w, dequeue (rq s) with
      | Some Idle, (Item r', q) =>
          if decide (r = r')
          then Some (mkState q (<[w := Processing r 0]> (workers s)) (reply_channel s))
          else None
      | _, _ => None
      end
  | LStop w =>
      match workers s !! w, dequeue (rq s) with
      | Some Idle, (Terminated, _) =>
          Some (mkState (rq s) (<[w := Stopped]> (workers s)) (reply_channel s))
      | _, _ => None
      end
  | LInvoke w reply =>
      match workers s !! w with
      | Some (Processing r k) =>
          if bool_decide (k < max_attempts)
          then let '(st, resp) := on_reply r k reply in
               Some (mkState (rq s) (<[w := st]> (workers s))
                             (reply_channel s ++ option_list resp))
          else None
      | _ => None
      end
  | LGiveUp w =>
      match workers s !! w with
      | Some (Processing r k) =>
          if bool_decide (max_attempts ≤ k)
          then Some (mkState (rq s) (<[w := Idle]> (workers s))
                             (reply_channel s ++ [exhausted_response r]))
          else None
      | _ => None
      end
  | LShutdown => Some (mkState (shutdown (rq s)) (workers s) (reply_channel s))
  end.

(** Modelled from the spec: a run of the engine, one action after the
    other in any interleaving (section 5). *)
Fixpoint exec (max_attempts : nat) (s : state) (ls : list label) : option state :=
  match ls with
  | [] => Some s
  | l :: rest =>
      match step max_attempts s l with
      | Some s' => exec max_attempts s' rest
      | None => None
      end
  end.

(** The requests a run enqueued, and those it dequeued, in order. *)
Definition enqueued (ls : list label) : list Request :=
  omap (λ l, match l with LEnqueue _ r => Some r | _ => None end) ls.

Definition dequeued_by_run (ls : list label) : list Request :=
  omap (λ l, match l with LDequeue _ r => Some r | _ => None end) ls.

(** Actions of the workers (the others are the producers' and the
    supervisor's). *)
Definition worker_label (l : label) : bool :=
  match l with
  | LDequeue _ _ | LInvoke _ _ | LGiveUp _ | LStop _ => true
  | _ => false
  end.

(** The requests the workers hold. *)
Definition in_flight (ws : list worker_state) : list Request :=
  omap (λ st, match st with Processing r _ => Some r | _ => None end) ws.

(** No worker can act. *)
Definition quiescent (max_attempts : nat) (s : state) : Prop :=
  ∀ l, worker_label l = true → step max_attempts s l = None.

(** One Response per Request, as multisets of request ids. *)
Definition answered_exactly_once (reqs : list Request) (resps : list Response) : Prop :=
  response_to <$> resps ≡ₚ request_id <$> reqs.

(** An upper bound on the worker actions still to come. *)
Definition worker_budget (max_attempts : nat) (st : worker_state) : nat :=
  match st with
  | Processing _ k => S (max_attempts - k)
  | _ => 0
  end.

Definition budget (max_attempts : nat) (s : state) : nat :=
  length (items (rq s)) * (max_attempts + 2)
  + sum_list (worker_budget max_attempts <$> workers s).

(** The request ids present in a state: queued, held by a worker, or
    answered. *)
Definition tokens (s : state) : list nat :=
  (request_id <$> items (rq s)) ++ (request_id <$> in_flight (workers s))
  ++ (response_to <$> reply_channel s).

(** The engine has not been shut down: the queue is open and no worker has
    left its loop. *)
Definition running (s : state) : Prop :=
  closed (rq s) = false ∧ Stopped ∉ workers s.

End Engine.

(** * Concrete runs *)

Module Sample.

(** A stand-in for the interpreter's [repr], enough for documents that hold
    no float and only strings without quotes or escapes. *)
#[export] Instance plain_repr : PyRepr := {|
  repr_float := λ _, "0.0";
  repr_str := λ s, "'" +:+ s +:+ "'"
|}.

Definition messages_doc : json := PyDict [("start_message", PyStr "hi")].

(** A run directory that holds messages.json and no settings.json. *)
Definition missing_settings : env := {|
  env_open := λ file_name,
    if bool_decide (file_name = "messages.json") then inr (Json messages_doc)
    else inl (Exn "FileNotFoundError" file_name);
  env_argv := ArgvOptions None None;
  env_environ := ∅;
  env_pid := 4242;
  env_now := "2023_03_01_12_00_00";
  env_logs_dir_exists := true;
  env_makedirs := None;
  env_open_log := None;
  env_sigterm_delivered := true
|}.

(** A run directory that holds both files. *)
Definition both_files : env := {|
  env_open := λ file_name,
    if bool_decide (file_name = "messages.json") then inr (Json messages_doc)
    else if bool_decide (file_name = "settings.json")
         then inr (Json (PyDict [("queue_max", PyInt 10)]))
         else inl (Exn "FileNotFoundError" file_name);
  env_argv := ArgvOptions None None;
  env_environ := ∅;
  env_pid := 4242;
  env_now := "2023_03_01_12_00_00";
  env_logs_dir_exists := false;
  env_makedirs := None;
  env_open_log := None;
  env_sigterm_delivered := true
|}.

Definition new_object (l : loc) (attrs : gmap string pyval) (w : world) : world :=
  World (<[l := attrs]> (w_heap w)) (w_sigint w) (w_sigterm w).

(** Components that accept any settings: each constructor allocates its
    instance, the bot handler creates its queue, every start call returns. *)
Definition stubs : components := {|
  Authenticator_new := λ settings w,
    (Return 1%positive, new_object 1%positive {[ "settings" := VJson settings ]} w);
  start_chatbot := λ _ w, (Return tt, w);
  AIHandler_new := λ settings authenticator w,
    (Return 2%positive,
     new_object 2%positive {[ "settings" := VJson settings; "authenticator" := VRef authenticator ]} w);
  thread_start := λ _ w, (Return tt, w);
  BotHandler_new := λ settings messages ai_handler w,
    (Return 3%positive,
     new_object 3%positive {[ "messages" := VJson messages; "requests_queue" := VRef 4%positive ]}
                (new_object 4%positive ∅ w));
  reply_thread_start := λ _ w, (Return tt, w);
  bot_start := λ _ w, (Return tt, w);
  on_sigint := λ w, (Return tt, w);
  on_sigterm := λ w, (Return tt, w);
  type_name := λ l _,
    if bool_decide (l = 1%positive) then "Authenticator"
    else if bool_decide (l = 2%positive) then "AIHandler"
    else if bool_decide (l = 3%positive) then "BotHandler"
    else "Queue"
|}.

(** The command line [--version]: [argparse] prints the version and exits
    with status 0. *)
Definition version_flag : env := {|
  env_open := λ file_name, inl (Exn "FileNotFoundError" file_name);
  env_argv := ArgvExit 0;
  env_environ := ∅;
  env_pid := 4242;
  env_now := "2023_03_01_12_00_00";
  env_logs_dir_exists := false;
  env_makedirs := None;
  env_open_log := None;
  env_sigterm_delivered := true
|}.

(** A run directory in which the logs directory cannot be made. *)
Definition unwritable_dir : env := {|
  env_open := λ file_name, inl (Exn "FileNotFoundError" file_name);
  env_argv := ArgvOptions None None;
  env_environ := ∅;
  env_pid := 4242;
  env_now := "2023_03_01_12_00_00";
  env_logs_dir_exists := false;
  env_makedirs := Some (Exn "PermissionError" "logs");
  env_open_log := None;
  env_sigterm_delivered := true
|}.

(** Components whose bot handler has no [requests_queue]. *)
Definition stubs_without_queue : components := {|
  Authenticator_new := Authenticator_new stubs;
  start_chatbot := start_chatbot stubs;
  AIHandler_new := AIHandler_new stubs;
  thread_start := thread_start stubs;
  BotHandler_new := λ settings messages ai_handler w,
    (Return 3%positive, new_object 3%positive {[ "messages" := VJson messages ]} w);
  reply_thread_start := reply_thread_start stubs;
  bot_start := bot_start stubs;
  on_sigint := on_sigint stubs;
  on_sigterm := on_sigterm stubs;
  type_name := type_name stubs
|}.

(** A fresh interpreter: no instance yet, Python's SIGINT handler, SIGTERM
    at its default. *)
Definition fresh : world := World ∅ default_int_handler SIG_DFL.

(** Two requests, a backend that always times out, and a run of the engine
    with two workers. *)
Definition hello : Engine.Request := Engine.mkRequest 1 "chat-7" "hello" 100.
Definition again : Engine.Request := Engine.mkRequest 2 "chat-7" "again" 101.

Definition always_timeout : nat → string → Engine.backend_reply :=
  λ _ _, inr (Engine.Retryable "timeout").

Definition two_then_work : list Engine.label :=
  [ Engine.LEnqueue 1 hello; Engine.LEnqueue 1 again;
    Engine.LDequeue 0 hello; Engine.LInvoke 0 (inr (Engine.Retryable "timeout"));
    Engine.LDequeue 1 again ].

Definition one_worker_run : list Engine.label :=
  [ Engine.LEnqueue 1 hello; Engine.LEnqueue 1 again;
    Engine.LDequeue 0 hello; Engine.LInvoke 0 (inl "hi there");
    Engine.LDequeue 0 again ].

Definition one_worker_state : Engine.state :=
  Engine.mkState (Engine.mkQueue [] None false)
                 [Engine.Processing again 0]
                 [Engine.mkResponse 1 (Engine.Success "hi there")].

Definition two_then_work_state : Engine.state :=
  Engine.mkState (Engine.mkQueue [] None false)
                 [Engine.Processing hello 1; Engine.Processing again 0] [].

End Sample.

(** * Vocabulary of the statements *)

(** The calls of [main] into the components, without their arguments. *)
Inductive call_label : Type :=
| Called (callee : string)
| Returned (callee : string).

Definition calls (evs : list event) : list call_label :=
  omap (λ e, match e with
             | ECall c _ => Some (Called c)
             | EReturn c => Some (Returned c)
             | _ => None
             end) evs.

(** The order of lines 141-158. *)
Definition startup_sequence : list call_label :=
  [ Called "Authenticator.Authenticator"; Returned "Authenticator.Authenticator";
    Called "AIHandler.AIHandler"; Returned "AIHandler.AIHandler";
    Called "BotHandler.BotHandler"; Returned "BotHandler.BotHandler";
    Called "Authenticator.start_chatbot"; Returned "Authenticator.start_chatbot";
    Called "AIHandler.thread_start"; Returned "AIHandler.thread_start";
    Called "BotHandler.reply_thread_start"; Returned "BotHandler.reply_thread_start";
    Called "BotHandler.bot_start"; Returned "BotHandler.bot_start" ].

(** [obj.name] is [v] in world [w]. *)
Definition has_attr (w : world) (obj : loc) (name : string) (v : pyval) : Prop :=
  w_heap w !! obj ≫= lookup name = Some v.

(** Components whose constructors and start calls all return, the bot
    handler with a [requests_queue]. *)
Record returning (C : components) : Prop := {
  ret_Authenticator : ∀ s w, ∃ l w', Authenticator_new C s w = (Return l, w');
  ret_AIHandler : ∀ s a w, ∃ l w', AIHandler_new C s a w = (Return l, w');
  ret_BotHandler : ∀ s m ai w, ∃ l w' q,
      BotHandler_new C s m ai w = (Return l, w') ∧ has_attr w' l "requests_queue" q;
  ret_start_chatbot : ∀ l w, ∃ w', start_chatbot C l w = (Return tt, w');
  ret_thread_start : ∀ l w, ∃ w', thread_start C l w = (Return tt, w');
  ret_reply_thread_start : ∀ l w, ∃ w', reply_thread_start C l w = (Return tt, w');
  ret_bot_start : ∀ l w, ∃ w', bot_start C l w = (Return tt, w')
}.

(** Components that leave the SIGINT handler as they found it. *)
Record keeps_sigint (C : components) : Prop := {
  keep_Authenticator : ∀ s w, w_sigint (Authenticator_new C s w).2 = w_sigint w;
  keep_AIHandler : ∀ s a w, w_sigint (AIHandler_new C s a w).2 = w_sigint w;
  keep_BotHandler : ∀ s m ai w, w_sigint (BotHandler_new C s m ai w).2 = w_sigint w;
  keep_start_chatbot : ∀ l w, w_sigint (start_chatbot C l w).2 = w_sigint w;
  keep_thread_start : ∀ l w, w_sigint (thread_start C l w).2 = w_sigint w;
  keep_reply_thread_start : ∀ l w, w_sigint (reply_thread_start C l w).2 = w_sigint w;
  keep_bot_start : ∀ l w, w_sigint (bot_start C l w).2 = w_sigint w;
  keep_on_sigterm : ∀ w, w_sigint (on_sigterm C w).2 = w_sigint w
}.

(** The file [main] loads its settings from, given the value of
    [--settings]. *)
Definition settings_path (E : env) (s : option string) : string :=
  default (os_getenv E "TELEGRAMUS_SETTINGS_FILE" SETTINGS_FILE) s.

(** The file [main] loads its messages from, given the value of
    [--messages]. *)
Definition messages_path (E : env) (m : option string) : string :=
  default (os_getenv E "TELEGRAMUS_MESSAGES_FILE" MESSAGES_FILE) m.

(** The events of the logging setup and of [load_json]. *)
Definition quiet (e : event) : Prop :=
  match e with
  | ELog INFO _ | ELog ERROR _ | EMakedirs _ | EOpenLog _ => True
  | _ => False
  end.

(** The process ids terminated, the warnings logged and the arguments of
    the calls of one callee, among events. *)
Definition terminated_pid (e : event) : option Z :=
  match e with ETerminate p => Some p | _ => None end.

Definition warning_of (e : event) : option log_msg :=
  match e with ELog WARNING m => Some m | _ => None end.

Definition call_args (callee : string) (e : event) : option (list pyval) :=
  match e with
  | ECall c a => if String.eqb c callee then Some a else None
  | _ => None
  end.

(** What [main] has done after its quiet prefix, and how it ended: either
    it went through the whole startup and ran [exit_], or it stopped
    before [bot_start] returned. *)
Definition exit_shape (E : env) (rest : list event) : Prop :=
  (omap terminated_pid rest = [env_pid E]
   ∧ omap warning_of rest = [MsgText "Killing all threads..."]
   ∧ calls rest = startup_sequence)
  ∨ (omap terminated_pid rest = []
     ∧ omap warning_of rest = []
     ∧ (Returned "BotHandler.bot_start" ∉ calls rest)).

(** What [main] has done after its quiet prefix when the bot handler was
    constructed: had the instance no [requests_queue], [main] ended there,
    in the world the constructor left, with the AttributeError of line
    146. *)
Definition wiring_shape (C : components) (rest : list event)
    (r : outcome unit * world * list event) : Prop :=
  (Returned "BotHandler.BotHandler" ∉ calls rest)
  ∨ ∃ settings messages ai_handler w0 bot_handler w1,
      BotHandler_new C settings messages ai_handler w0 = (Return bot_handler, w1)
      ∧ (w_heap w1 !! bot_handler ≫= lookup "requests_queue" = None →
         outcome_of r
         = Raise (Exn "AttributeError"
                      (no_attribute_message (type_name C bot_handler w1)
                                            "requests_queue"))
         ∧ world_of r = w1
         ∧ calls rest = take 6 startup_sequence).

(** The arguments [main] gave the three constructors, when it reached the
    third. *)
Definition call_shape `{PyRepr} (E : env) (C : components) (w : world)
    (s m : option string) (rest : list event) : Prop :=
  omap (call_args "BotHandler.BotHandler") rest = []
  ∨ ∃ settings messages authenticator ai_handler,
      omap (call_args "BotHandler.BotHandler") rest
      = [[VJson settings; VJson messages; VRef ai_handler]]
      ∧ omap (call_args "AIHandler.AIHandler") rest
        = [[VJson settings; VRef authenticator]]
      ∧ omap (call_args "Authenticator.Authenticator") rest = [[VJson settings]]
      ∧ outcome_of (load_json E (settings_path E s) w) = Return settings
      ∧ outcome_of (load_json E (messages_path E m) w) = Return messages
      ∧ (∃ w0 w1, Authenticator_new C settings w0 = (Return authenticator, w1))
      ∧ (∃ w0 w1, AIHandler_new C settings authenticator w0 = (Return ai_handler, w1)).

(** A startup that is fatal: no component is constructed or started and the
    process exits with a non-zero status. *)
Definition fatal_startup (r : outcome unit * world * list event) : Prop :=
  calls (events_of r) = [] ∧ ∃ n, n ≠ 0%Z ∧ outcome_of r = SystemExit n.

(** A cooperative shutdown: the queue is shut down and the process exits
    with status 0. *)
Definition cooperative_shutdown (r : outcome unit * world * list event) : Prop :=
  Called "RequestQueue.shutdown" ∈ calls (events_of r)
  ∧ outcome_of r = SystemExit 0.

(** SIGINT is connected to [exit_]. *)
Definition interrupt_connected (w : world) : Prop :=
  w_sigint w = handler_exit_.

(** * Part I: facts about main.py *)

(** ** The string of a decoded value *)

Lemma pretty_N_go_length x s :
  String.length s ≤ String.length (pretty_N_go x s).
Proof.
  revert s. induction (N.lt_wf_0 x) as [x _ IH]; intros s.
  destruct (decide (x = 0)%N) as [->|Hx]; [by rewrite pretty_N_go_0|].
  rewrite pretty_N_go_step by lia.
  etrans; [|apply IH, N.div_lt; lia]. simpl. lia.
Qed.

Lemma pretty_Z_nonempty (n : Z) : pretty n ≠ "".
Proof.
  destruct n as [|p|p]; [done| |done].
  unfold pretty, pretty_Z, pretty, pretty_positive, pretty, pretty_N.
  rewrite decide_False by done. rewrite pretty_N_go_step by lia.
  intros Heq.
  pose proof (pretty_N_go_length (N.pos p `div` 10)
                (String (pretty_N_char (N.pos p `mod` 10)) "")) as Hlen.
  rewrite Heq in Hlen. simpl in Hlen. lia.
Qed.

Section MainFacts.
Context `{PyRepr}.
Variable E : env.
Variable C : components.

(** With a [repr] of floats that is never empty (Python's is not), the
    empty string is the only decoded value whose [str] is empty. *)
Lemma py_str_empty v :
  (∀ x, repr_float x ≠ "") → py_str v = "" ↔ v = PyStr "".
Proof.
  intros Hfloat. split; [|by intros ->].
  destruct v as [|[]|n|x|s|l|d]; simpl; try done.
  - intros Hn. by destruct (pretty_Z_nonempty n).
  - intros Hx. by destruct (Hfloat x).
  - by intros ->.
Qed.

(** ** Runs of the parts of [main] *)

Lemma calls_app l1 l2 : calls (l1 ++ l2) = calls l1 ++ calls l2.
Proof. apply omap_app. Qed.

Lemma bind_assoc {A B D} (m : M A) (k : A → M B) (k' : B → M D) w :
  bind (bind m k) k' w = bind m (λ a, bind (k a) k') w.
Proof.
  unfold bind. destruct (m w) as [[[] w1] t1]; try done.
  destruct (k a w1) as [[[] w2] t2]; try done.
  destruct (k' a0 w2) as [[o w3] t3]. by rewrite app_assoc.
Qed.

Lemma bind_Return_events {A B} (m : M A) (k : A → M B) w a w1 t1 :
  m w = (Return a, w1, t1) → events_of (bind m k w) = t1 ++ events_of (k a w1).
Proof. unfold bind, events_of. intros ->. by destruct (k a w1) as [[o w2] t2]. Qed.

Lemma call_bind_events {A B} callee args (f : world → outcome A * world)
    (k : A → M B) w :
  ∃ rest, events_of (bind (call callee args f) k w) = ECall callee args :: rest.
Proof.
  unfold bind, call, events_of. destruct (f w) as [[] w1]; simpl; try by eexists.
  destruct (k a w1) as [[o w2] t2]. by eexists.
Qed.

Ltac unfold_load_json :=
  unfold load_json, try_except_Exception, bind, open_, json_load, logging_info,
    logging_error, emit, raise, ret.

Lemma load_json_run file_name w :
  ∃ v evs, load_json E file_name w = (Return v, w, evs) ∧ calls evs = [].
Proof.
  unfold_load_json.
  destruct (env_open E file_name) as [e|[e|v]]; simpl.
  - by eexists _, _.
  - by eexists _, _.
  - destruct (is_not_None v && _); simpl; by eexists _, _.
Qed.

Lemma load_json_None_logged file_name w w' evs :
  load_json E file_name w = (Return PyNone, w', evs) → ∃ msg, ELog ERROR msg ∈ evs.
Proof.
  unfold_load_json.
  destruct (env_open E file_name) as [e|[e|v]]; simpl.
  - intros [= <- <-]. eexists. repeat constructor.
  - intros [= <- <-]. eexists. repeat constructor.
  - destruct (is_not_None v && _) eqn:Hv; simpl.
    + intros [= -> <- <-]. done.
    + intros [= <- <-]. eexists. repeat constructor.
Qed.

Lemma logging_setup_run w :
  ∃ o evs, logging_setup E w = (o, w, evs) ∧ calls evs = [].
Proof.
  unfold logging_setup, bind, logging_info, emit, raise, ret.
  destruct (env_logs_dir_exists E), (env_makedirs E), (env_open_log E); simpl;
    by eexists _, _.
Qed.

Lemma parse_args_run w : ∃ o, parse_args E w = (o, w, []).
Proof. unfold parse_args, sys_exit, ret. destruct (env_argv E); by eexists. Qed.

Lemma exit__run signum frame w :
  ∃ o w' evs, exit_ E C signum frame w = (o, w', evs) ∧ calls evs = []
     ∧ (∀ a, o ≠ Return a)
     ∧ (w' = w ∨ w' = (on_sigterm C w).2).
Proof.
  unfold exit_, psutil_terminate, os_getpid, bind, logging_warning, emit, sys_exit, ret.
  rewrite bool_decide_eq_true_2 by done. simpl.
  destruct (env_sigterm_delivered E); simpl; [|eexists _, _, _; eauto].
  destruct (w_sigterm w) eqn:Hs; simpl.
  - eexists _, _, _. eauto.
  - eexists _, _, _. eauto.
  - destruct (on_sigterm C w) as [[] w1]; simpl; eexists _, _, _; eauto.
Qed.

(** One statement of [main], run on the current world: the outcome of a
    call into a component is split into its six cases. *)
Ltac run_step :=
  match goal with
  | |- context [logging_setup E ?w] =>
      let o := fresh "o" in let evs := fresh "evs" in
      let Hr := fresh "Hr" in let Hc := fresh "Hc" in
      destruct (logging_setup_run w) as (o & evs & Hr & Hc);
      rewrite Hr; clear Hr; destruct o; simpl
  | |- context [parse_args E ?w] =>
      let o := fresh "o" in let Hr := fresh "Hr" in
      destruct (parse_args_run w) as (o & Hr); rewrite Hr; clear Hr; destruct o; simpl
  | |- context [load_json E ?f ?w] =>
      let v := fresh "v" in let evs := fresh "evs" in
      let Hr := fresh "Hr" in let Hc := fresh "Hc" in
      destruct (load_json_run f w) as (v & evs & Hr & Hc); rewrite Hr; clear Hr; simpl
  | |- context [exit_ E C ?a ?b ?w] =>
      let o := fresh "o" in let w' := fresh "w" in let evs := fresh "evs" in
      let Hr := fresh "Hr" in let Hc := fresh "Hc" in let Hx := fresh "Hexit" in
      destruct (exit__run a b w) as (o & w' & evs & Hr & Hc & _ & Hx);
      rewrite Hr; clear Hr; destruct o; simpl
  | |- context [call ?c ?args ?f ?w] =>
      let o := fresh "o" in let w' := fresh "w" in let Hf := fresh "Hcall" in
      unfold call at 1; destruct (f w) as [o w'] eqn:Hf; destruct o; simpl
  | |- context [getattr C ?o ?n ?w] =>
      let Hg := fresh "Hget" in
      unfold getattr at 1; destruct (w_heap w !! o ≫= lookup n) eqn:Hg; simpl
  end.

Ltac run_main :=
  unfold main, main_wiring, main_startup, bind; repeat run_step;
  unfold setattr, ret; simpl.

Ltac no_calls :=
  rewrite ?calls_app; simpl; rewrite ?calls_app; simpl;
  repeat match goal with Hc : calls _ = [] |- _ => rewrite Hc; clear Hc end; simpl.



Lemma startup_completes w s m :
  outcome_of (logging_setup E w) = Return tt →
  env_argv E = ArgvOptions s m →
  returning C →
  calls (events_of (main E C w)) = startup_sequence.
Proof.
  intros Hlog Hargv HC. revert Hlog. unfold events_of, outcome_of.
  unfold main, main_wiring, main_startup, bind.
  destruct (logging_setup_run w) as (o & evs & Hr & Hc); rewrite Hr; clear Hr. simpl.
  intros ->. unfold parse_args. rewrite Hargv. unfold ret at 1. simpl.
  run_step. run_step.
  repeat (unfold call at 1;
    match goal with
    | |- context [Authenticator_new C ?s ?w] =>
        destruct (ret_Authenticator C HC s w) as (? & ? & ->)
    | |- context [AIHandler_new C ?s ?a ?w] =>
        destruct (ret_AIHandler C HC s a w) as (? & ? & ->)
    | |- context [BotHandler_new C ?s ?m ?a ?w] =>
        let Hq := fresh "Hq" in
        destruct (ret_BotHandler C HC s m a w) as (? & ? & ? & -> & Hq);
        unfold getattr at 1; unfold has_attr in Hq; simpl; rewrite Hq;
        unfold setattr, ret
    | |- context [start_chatbot C ?l ?w] =>
        destruct (ret_start_chatbot C HC l w) as (? & ->)
    | |- context [thread_start C ?l ?w] =>
        destruct (ret_thread_start C HC l w) as (? & ->)
    | |- context [reply_thread_start C ?l ?w] =>
        destruct (ret_reply_thread_start C HC l w) as (? & ->)
    | |- context [bot_start C ?l ?w] =>
        destruct (ret_bot_start C HC l w) as (? & ->)
    end; simpl).
  run_step; no_calls; reflexivity.
Qed.

Lemma keeps_call {A} (f : world → outcome A * world) w o w1 :
  f w = (o, w1) → w_sigint (f w).2 = w_sigint w → w_sigint w1 = w_sigint w.
Proof. by intros ->. Qed.

Ltac kept HC :=
  repeat match goal with
  | Hf : Authenticator_new C _ _ = _ |- _ => apply keeps_call in Hf; [|apply HC]
  | Hf : AIHandler_new C _ _ _ = _ |- _ => apply keeps_call in Hf; [|apply HC]
  | Hf : BotHandler_new C _ _ _ _ = _ |- _ => apply keeps_call in Hf; [|apply HC]
  | Hf : start_chatbot C _ _ = _ |- _ => apply keeps_call in Hf; [|apply HC]
  | Hf : thread_start C _ _ = _ |- _ => apply keeps_call in Hf; [|apply HC]
  | Hf : reply_thread_start C _ _ = _ |- _ => apply keeps_call in Hf; [|apply HC]
  | Hf : bot_start C _ _ = _ |- _ => apply keeps_call in Hf; [|apply HC]
  | Hx : _ = _ ∨ _ = (on_sigterm C ?w0).2 |- _ =>
      pose proof (keep_on_sigterm C HC w0); destruct Hx as [->| ->]
  end.

(** ** The claims on main.py *)

(** C1, as amended. When [load_json] returns [None] for the settings file
    (logging is set up and the arguments parse), [main] does not stop: the
    failure is logged at error level, the next call of [main] into a
    component is [Authenticator.Authenticator(None)], and when every
    constructor and start call returns, all three components are
    constructed and all four start calls are made, in order. *)
Theorem missing_settings_is_not_fatal w s m :
  outcome_of (logging_setup E w) = Return tt →
  env_argv E = ArgvOptions s m →
  outcome_of (load_json E (settings_path E s) w) = Return PyNone →
  (∃ pre post,
      events_of (main E C w)
      = pre ++ ECall "Authenticator.Authenticator" [VJson PyNone] :: post
      ∧ calls pre = [] ∧ ∃ msg, ELog ERROR msg ∈ pre)
  ∧ (returning C → calls (events_of (main E C w)) = startup_sequence).
Proof.
  intros Hlog Hargv Hload. split; [|by eapply startup_completes].
  destruct (logging_setup_run w) as (o & evs & Hr & Hc).
  rewrite Hr in Hlog. unfold outcome_of in Hlog. simpl in Hlog. subst o.
  assert (parse_args E w
          = (Return (Args (settings_path E s)
                          (default (os_getenv E "TELEGRAMUS_MESSAGES_FILE" MESSAGES_FILE) m)),
             w, [])) as Hargs.
  { unfold parse_args. by rewrite Hargv. }
  destruct (load_json_run (settings_path E s) w) as (v & evs1 & Hr1 & Hc1).
  rewrite Hr1 in Hload. unfold outcome_of in Hload. simpl in Hload.
  injection Hload as ->.
  destruct (load_json_None_logged _ _ _ _ Hr1) as [msg Hmsg].
  destruct (load_json_run
              (default (os_getenv E "TELEGRAMUS_MESSAGES_FILE" MESSAGES_FILE) m) w)
    as (v2 & evs2 & Hr2 & Hc2).
  unfold main, main_wiring.
  rewrite bind_assoc, (bind_Return_events _ _ _ _ _ _ Hr).
  rewrite bind_assoc, (bind_Return_events _ _ _ _ _ _ Hargs).
  simpl args_settings. simpl args_messages.
  rewrite bind_assoc, (bind_Return_events _ _ _ _ _ _ Hr1).
  rewrite bind_assoc, (bind_Return_events _ _ _ _ _ _ Hr2).
  rewrite bind_assoc.
  match goal with
  | |- context [events_of (bind (call ?c ?a ?f) ?k ?w)] =>
      destruct (call_bind_events c a f k w) as [rest ->]
  end.
  exists (evs ++ evs1 ++ evs2), rest. split; [by rewrite <-!app_assoc|].
  split; [by no_calls|].
  exists msg. rewrite !elem_of_app. auto.
Qed.

(** C2, as amended. [exit_] logs the warning, sends the terminate request
    to its own process and makes no call into any component or queue. If
    the signal is not delivered, or is ignored, the process goes on and
    raises [SystemExit(0)]; delivered at its default disposition, the
    signal kills the process; delivered to a handler a component
    installed, [exit_] raises [SystemExit(0)] when the handler returns and
    ends as the handler did when it does not. *)
Theorem exit_terminates_the_process signum frame w :
  events_of (exit_ E C signum frame w)
  = [ELog WARNING (MsgText "Killing all threads..."); ETerminate (env_pid E)]
  ∧ calls (events_of (exit_ E C signum frame w)) = []
  ∧ if env_sigterm_delivered E then
      match w_sigterm w with
      | SIG_DFL => outcome_of (exit_ E C signum frame w) = Killed SIGTERM
                   ∧ world_of (exit_ E C signum frame w) = w
      | SIG_IGN => outcome_of (exit_ E C signum frame w) = SystemExit 0
                   ∧ world_of (exit_ E C signum frame w) = w
      | sigterm_of_component =>
          world_of (exit_ E C signum frame w) = (on_sigterm C w).2
          ∧ outcome_of (exit_ E C signum frame w)
            = match (on_sigterm C w).1 with
              | Return _ => SystemExit 0
              | Raise e => Raise e
              | SystemExit n => SystemExit n
              | KeyboardInterrupt => KeyboardInterrupt
              | Killed sg => Killed sg
              | Diverge => Diverge
              end
      end
    else outcome_of (exit_ E C signum frame w) = SystemExit 0
         ∧ world_of (exit_ E C signum frame w) = w.
Proof.
  unfold exit_, psutil_terminate, os_getpid, bind, logging_warning, emit, sys_exit, ret,
    events_of, outcome_of, world_of.
  rewrite bool_decide_eq_true_2 by done. simpl.
  destruct (env_sigterm_delivered E); simpl; [|done].
  destruct (w_sigterm w); simpl; try done.
  destruct (on_sigterm C w) as [[[]| | | | |] w1]; simpl; repeat split; done.
Qed.

(** C3, as amended. [main] installs no handler for the interrupt signal:
    with components that leave the SIGINT handler alone, the handler after
    the wiring and at the end of [main] is the one the process started
    with, so that under Python's default a delivered SIGINT raises
    KeyboardInterrupt and does not run [exit_]. *)
Theorem main_installs_no_sigint_handler w :
  keeps_sigint C →
  w_sigint (world_of (main_wiring E C w)) = w_sigint w
  ∧ w_sigint (world_of (main E C w)) = w_sigint w
  ∧ (w_sigint w = default_int_handler →
     deliver_sigint E C (world_of (main_wiring E C w))
     = (KeyboardInterrupt, world_of (main_wiring E C w), [])).
Proof.
  intros HC.
  assert (w_sigint (world_of (main_wiring E C w)) = w_sigint w) as Hw.
  { unfold world_of, main_wiring, bind. repeat run_step; unfold setattr, ret; simpl;
      kept HC; congruence. }
  split; [done|]. split.
  - unfold world_of. run_main; kept HC; simpl in *; congruence.
  - intros Hd. unfold deliver_sigint. by rewrite Hw, Hd.
Qed.


(** C8. [load_json] always returns: whatever [open] or [json.load] raise is
    caught and logged at error level, the world is left as it was, and the
    value returned is [None] or the decoded document. *)
Theorem load_json_never_raises file_name w :
  ∃ v evs, load_json E file_name w = (Return v, w, evs)
    ∧ (v = PyNone ∨ env_open E file_name = inr (Json v))
    ∧ (∀ e, env_open E file_name = inl e ∨ env_open E file_name = inr (NotJson e) →
         v = PyNone
         ∧ evs = [ELog INFO (MsgText ("Loading " +:+ file_name +:+ "..."));
                  ELog ERROR (MsgExc e)]).
Proof.
  unfold_load_json.
  destruct (env_open E file_name) as [e|[e|v]] eqn:Hopen; simpl.
  - eexists _, _. split; [reflexivity|]. split; [by left|].
    by intros e' [[= <-]|[=]].
  - eexists _, _. split; [reflexivity|]. split; [by left|].
    by intros e' [[=]|[= <-]].
  - destruct (is_not_None v && _); simpl; eexists _, _; (split; [reflexivity|]);
      (split; [auto|]); intros e' [[=]|[=]].
Qed.

(** C9. [load_json] returns [None] when the file cannot be opened, when it
    does not parse, when it parses to [null] and when the [str] of the
    decoded value is empty (as for the document of the empty string);
    every other decoded document is returned unchanged. *)
Theorem load_json_returns file_name w :
  (∀ e, env_open E file_name = inl e →
        outcome_of (load_json E file_name w) = Return PyNone)
  ∧ (∀ e, env_open E file_name = inr (NotJson e) →
        outcome_of (load_json E file_name w) = Return PyNone)
  ∧ (∀ v, env_open E file_name = inr (Json v) →
        (v = PyNone ∨ py_str v = "" →
         outcome_of (load_json E file_name w) = Return PyNone)
        ∧ (v ≠ PyNone → py_str v ≠ "" →
           outcome_of (load_json E file_name w) = Return v))
  ∧ py_str (PyStr "") = "".
Proof.
  unfold_load_json. unfold outcome_of.
  split; [by intros e ->|]. split; [by intros e ->|]. split; [|done].
  intros v ->. simpl. split.
  - intros [-> | Hs]; [done|]. rewrite Hs. simpl. by rewrite andb_false_r.
  - intros Hv Hs.
    assert (is_not_None v = true) as -> by by destruct v.
    rewrite bool_decide_eq_true_2; [done|].
    destruct (py_str v); [done|simpl; lia].
Qed.

(** C10. When the wiring of [main] completes, the [requests_queue] of the
    AI handler and of the bot handler are the same value, the one the
    bot handler had when its constructor returned. *)
Theorem wiring_shares_queue w authenticator ai_handler bot_handler w' evs :
  main_wiring E C w = (Return (authenticator, ai_handler, bot_handler), w', evs) →
  ∃ q, has_attr w' bot_handler "requests_queue" q
     ∧ has_attr w' ai_handler "requests_queue" q
     ∧ ∃ settings messages w0 w1,
         BotHandler_new C settings messages ai_handler w0 = (Return bot_handler, w1)
         ∧ has_attr w1 bot_handler "requests_queue" q.
Proof.
  unfold main_wiring, bind. repeat run_step; try discriminate.
  unfold setattr, ret. simpl. intros [= -> -> -> <- <-].
  exists p. unfold has_attr in *. simpl. repeat split.
  - destruct (decide (ai_handler = bot_handler)) as [->|Hne].
    + rewrite lookup_insert_eq. simpl. by rewrite lookup_insert_eq.
    + by rewrite lookup_insert_ne.
  - rewrite lookup_insert_eq. simpl. by rewrite lookup_insert_eq.
  - eexists _, _, _, _. split; eassumption.
Qed.

End MainFacts.

(** ** Concrete runs of main.py *)

Section SampleRuns.
Import Sample.


Lemma stubs_keep_sigint : keeps_sigint stubs.
Proof. by split. Qed.

(** C1: with settings.json missing and components that accept [None],
    [load_json] returns [None] for the settings and [main] still constructs
    and starts every component; the process ends in [exit_], killed by its
    own SIGTERM, not by a non-zero exit. *)
Lemma missing_settings_runs_everything :
  outcome_of (load_json missing_settings "settings.json" fresh) = Return PyNone
  ∧ calls (events_of (main missing_settings stubs fresh)) = startup_sequence
  ∧ ECall "Authenticator.Authenticator" [VJson PyNone]
      ∈ events_of (main missing_settings stubs fresh)
  ∧ outcome_of (main missing_settings stubs fresh) = Killed SIGTERM
  ∧ ¬ fatal_startup (main missing_settings stubs fresh).
Proof.
  split; [by vm_compute|]. split; [by vm_compute|]. split.
  - apply list_elem_of_In. vm_compute. tauto.
  - split; [by vm_compute|]. intros [Hcalls _]. vm_compute in Hcalls. discriminate.
Qed.

Lemma missing_settings_witness :
  outcome_of (logging_setup missing_settings fresh) = Return tt
  ∧ env_argv missing_settings = ArgvOptions None None
  ∧ outcome_of (load_json missing_settings (settings_path missing_settings None) fresh)
    = Return PyNone
  ∧ (∃ pre post,
        events_of (main missing_settings stubs fresh)
        = pre ++ ECall "Authenticator.Authenticator" [VJson PyNone] :: post
        ∧ calls pre = [] ∧ ∃ msg, ELog ERROR msg ∈ pre)
  ∧ (returning stubs → calls (events_of (main missing_settings stubs fresh))
                        = startup_sequence).
Proof.
  split; [reflexivity|]. split; [reflexivity|]. split; [reflexivity|].
  apply (missing_settings_is_not_fatal missing_settings stubs fresh None None);
    reflexivity.
Defined.

(** C2: [exit_] on a fresh interpreter logs, signals its own process and is
    killed; no queue is shut down and no exit status 0 is reached. *)
Lemma exit_is_not_cooperative :
  events_of (exit_ both_files stubs (VJson (PyInt 2)) (VJson PyNone) fresh)
  = [ELog WARNING (MsgText "Killing all threads..."); ETerminate 4242]
  ∧ calls (events_of (exit_ both_files stubs (VJson (PyInt 2)) (VJson PyNone) fresh))
    = []
  ∧ outcome_of (exit_ both_files stubs (VJson (PyInt 2)) (VJson PyNone) fresh)
    = Killed SIGTERM
  ∧ ¬ cooperative_shutdown
        (exit_ both_files stubs (VJson (PyInt 2)) (VJson PyNone) fresh).
Proof.
  split; [by vm_compute|]. split; [by vm_compute|]. split; [by vm_compute|].
  intros [_ Hout]. vm_compute in Hout. discriminate.
Qed.

(** C3: after the wiring of [main] the SIGINT handler is still Python's
    own, and a delivered SIGINT raises KeyboardInterrupt without any event
    of [exit_]; line 133, had it run, would have connected the signal. *)
Lemma sigint_not_connected :
  interrupt_connected (world_of (connect_interrupt_signal fresh))
  ∧ w_sigint (world_of (main_wiring both_files stubs fresh)) = default_int_handler
  ∧ outcome_of (deliver_sigint both_files stubs
                  (world_of (main_wiring both_files stubs fresh)))
    = KeyboardInterrupt
  ∧ events_of (deliver_sigint both_files stubs
                 (world_of (main_wiring both_files stubs fresh))) = []
  ∧ ¬ interrupt_connected (world_of (main_wiring both_files stubs fresh)).
Proof.
  split; [reflexivity|].
  split; [by vm_compute|]. split; [by vm_compute|]. split; [by vm_compute|].
  intros Hc. vm_compute in Hc. discriminate.
Qed.

Lemma no_sigint_handler_witness :
  keeps_sigint stubs
  ∧ w_sigint (world_of (main_wiring both_files stubs fresh)) = w_sigint fresh
  ∧ w_sigint (world_of (main both_files stubs fresh)) = w_sigint fresh
  ∧ (w_sigint fresh = default_int_handler →
     deliver_sigint both_files stubs (world_of (main_wiring both_files stubs fresh))
     = (KeyboardInterrupt, world_of (main_wiring both_files stubs fresh), [])).
Proof.
  split; [apply stubs_keep_sigint|].
  apply (main_installs_no_sigint_handler both_files stubs fresh), stubs_keep_sigint.
Defined.

(** C4 on a run: with both files present every call is made, in order. *)
Lemma both_files_full_startup :
  calls (events_of (main both_files stubs fresh)) = startup_sequence.
Proof. by vm_compute. Qed.


Lemma wiring_witness :
  main_wiring both_files stubs fresh
  = (Return (1%positive, 2%positive, 3%positive),
     world_of (main_wiring both_files stubs fresh),
     events_of (main_wiring both_files stubs fresh))
  ∧ ∃ q, has_attr (world_of (main_wiring both_files stubs fresh)) 3%positive
                  "requests_queue" q
       ∧ has_attr (world_of (main_wiring both_files stubs fresh)) 2%positive
                  "requests_queue" q
       ∧ ∃ settings messages w0 w1,
           BotHandler_new stubs settings messages 2%positive w0
           = (Return 3%positive, w1)
           ∧ has_attr w1 3%positive "requests_queue" q.
Proof.
  split; [reflexivity|].
  apply (wiring_shares_queue both_files stubs fresh 1%positive 2%positive 3%positive
           (world_of (main_wiring both_files stubs fresh))
           (events_of (main_wiring both_files stubs fresh))).
  reflexivity.
Defined.

End SampleRuns.

(** * Part II: facts about the request-relay engine *)

Section EngineFacts.
Import Engine.
Variable max_attempts : nat.

Lemma process_request_retryable backend r k a :
  (∀ n, ∃ reason, backend n (payload r) = inr (Retryable reason)) →
  process_request backend r k a = (exhausted_response r, a + k).
Proof.
  intros Hb. revert a. induction k as [|k IH]; intros a; simpl.
  - by rewrite Nat.add_0_r.
  - destruct (Hb a) as [reason ->]. simpl. rewrite IH. f_equal. lia.
Qed.

(** C7. Against a backend that answers every invocation with a retryable
    error, the AIWorker invokes the backend exactly [max_attempts] times
    and then produces the Response that carries the terminal error
    descriptor RetriesExhausted. *)
Theorem retry_bound backend r :
  (∀ n, ∃ reason, backend n (payload r) = inr (Retryable reason)) →
  AIWorker_process max_attempts backend r
  = (mkResponse (request_id r) (Failure RetriesExhausted), max_attempts).
Proof. intros Hb. unfold AIWorker_process. by rewrite process_request_retryable. Qed.

(** ** Steps and runs *)
Lemma exec_app s l1 l2 :
  exec max_attempts s (l1 ++ l2)
  = exec max_attempts s l1 ≫= λ s1, exec max_attempts s1 l2.
Proof.
  revert s. induction l1 as [|l l1 IH]; intros s; simpl; [done|].
  destruct (step max_attempts s l); simpl; auto.
Qed.

Lemma insert_split {A} (ws : list A) w st st' :
  ws !! w = Some st →
  ∃ a b, ws = a ++ st :: b ∧ <[w := st']> ws = a ++ st' :: b.
Proof.
  intros Hw. exists (take w ws), (drop (S w) ws). split.
  - by rewrite take_drop_middle.
  - apply insert_take_drop. by eapply lookup_lt_Some.
Qed.

Lemma enqueue_inl r q q' u :
  enqueue r q = (inl u, q') → items q' = items q ++ [r] ∧ closed q' = closed q.
Proof. unfold enqueue. destruct (closed q || is_full q); [done|]. by intros [= <- <-]. Qed.

Lemma dequeue_Item q r q' :
  dequeue q = (Item r, q') → items q = r :: items q' ∧ closed q' = closed q.
Proof.
  unfold dequeue. destruct (items q) as [|r' rest] eqn:Hi.
  - by destruct (closed q).
  - by intros [= -> <-].
Qed.

Lemma dequeue_Terminated q q' : dequeue q = (Terminated, q') → closed q = true.
Proof.
  unfold dequeue. destruct (items q); [|done]. by destruct (closed q).
Qed.

Lemma step_inv s l s' :
  step max_attempts s l = Some s' →
  match l with
  | LEnqueue _ r =>
      closed (rq s) = false ∧ items (rq s') = items (rq s) ++ [r]
      ∧ closed (rq s') = closed (rq s) ∧ workers s' = workers s
      ∧ reply_channel s' = reply_channel s
  | LQueueFull _ _ => s' = s
  | LDequeue w r =>
      workers s !! w = Some Idle ∧ items (rq s) = r :: items (rq s')
      ∧ closed (rq s') = closed (rq s)
      ∧ workers s' = <[w := Processing r 0]> (workers s)
      ∧ reply_channel s' = reply_channel s
  | LInvoke w reply =>
      ∃ r k, workers s !! w = Some (Processing r k) ∧ k < max_attempts
        ∧ rq s' = rq s
        ∧ workers s' = <[w := (on_reply r k reply).1]> (workers s)
        ∧ reply_channel s' = reply_channel s ++ option_list (on_reply r k reply).2
  | LGiveUp w =>
      ∃ r k, workers s !! w = Some (Processing r k) ∧ max_attempts ≤ k
        ∧ rq s' = rq s ∧ workers s' = <[w := Idle]> (workers s)
        ∧ reply_channel s' = reply_channel s ++ [exhausted_response r]
  | LStop w =>
      workers s !! w = Some Idle ∧ closed (rq s) = true ∧ rq s' = rq s
      ∧ workers s' = <[w := Stopped]> (workers s)
      ∧ reply_channel s' = reply_channel s
  | LShutdown =>
      items (rq s') = items (rq s) ∧ closed (rq s') = true
      ∧ workers s' = workers s ∧ reply_channel s' = reply_channel s
  end.
Proof.
  destruct l as [p r|p r|w r|w reply|w|w|]; simpl.
  - destruct (enqueue r (rq s)) as [[u|e] q] eqn:He; [|done].
    intros [= <-]. simpl. unfold enqueue in He.
    destruct (closed (rq s)) eqn:Hc; [done|]. simpl in He.
    destruct (is_full (rq s)); [done|]. by injection He as _ <-.
  - destruct (enqueue r (rq s)) as [[u|e] q] eqn:He; [done|]. by intros [= <-].
  - destruct (workers s !! w) as [[| |]|]; try done.
    destruct (dequeue (rq s)) as [[r'| |] q] eqn:Hd; try done.
    case_decide; [subst r'|done]. intros [= <-]. simpl.
    apply dequeue_Item in Hd as [Hd ?]. done.
  - destruct (workers s !! w) as [[|r k|]|]; try done.
    case_bool_decide; [|done]. destruct (on_reply r k reply) as [st resp] eqn:Hr.
    intros [= <-]. exists r, k. by rewrite Hr.
  - destruct (workers s !! w) as [[|r k|]|]; try done.
    case_bool_decide; [|done]. intros [= <-]. by exists r, k.
  - destruct (workers s !! w) as [[| |]|]; try done.
    destruct (dequeue (rq s)) as [[r'| |] q] eqn:Hd; try done.
    intros [= <-]. apply dequeue_Terminated in Hd. done.
  - by intros [= <-].
Qed.

(** ** First in, first out *)
Lemma fifo_invariant s ls s' :
  exec max_attempts s ls = Some s' →
  items (rq s) ++ enqueued ls = dequeued_by_run ls ++ items (rq s').
Proof.
  revert s. induction ls as [|l ls IH]; intros s; simpl.
  - intros [= ->]. by rewrite app_nil_r.
  - destruct (step max_attempts s l) as [s1|] eqn:Hstep; [|done].
    intros Hex. specialize (IH _ Hex). revert Hstep.
    unfold enqueued, dequeued_by_run in *.
    destruct l as [p r|p r|w r|w reply|w|w|]; simpl.
    + destruct (enqueue r (rq s)) as [[u|e] q] eqn:He; [|done].
      intros [= <-]. simpl in IH. apply enqueue_inl in He as [He _].
      rewrite He in IH. by rewrite <-IH, <-app_assoc.
    + destruct (enqueue r (rq s)) as [[u|e] q] eqn:He; [done|]. by intros [= <-].
    + destruct (workers s !! w) as [[| |]|]; try done.
      destruct (dequeue (rq s)) as [[r'| |] q] eqn:Hd; try done.
      case_decide; [subst r'|done]. intros [= <-]. simpl in IH.
      apply dequeue_Item in Hd as [Hd _]. rewrite Hd. simpl. by f_equal.
    + destruct (workers s !! w) as [[| |]|]; try done.
      case_bool_decide; [|done]. destruct (on_reply r attempts reply).
      by intros [= <-].
    + destruct (workers s !! w) as [[| |]|]; try done.
      case_bool_decide; [|done]. by intros [= <-].
    + destruct (workers s !! w) as [[| |]|]; try done.
      destruct (dequeue (rq s)) as [[r'| |] q] eqn:Hd; try done.
      by intros [= <-].
    + by intros [= <-].
Qed.

Lemma fifo_from_init cap M ls s :
  exec max_attempts (init cap M) ls = Some s →
  enqueued ls = dequeued_by_run ls ++ items (rq s).
Proof. intros Hex. by apply fifo_invariant in Hex. Qed.

Lemma NoDup_app_cons_unique {A} (x : A) a b c d :
  NoDup (a ++ x :: b) → a ++ x :: b = c ++ x :: d → a = c ∧ b = d.
Proof.
  revert c. induction a as [|y a IH]; intros c Hnd Heq.
  - destruct c as [|z c]; simpl in *.
    + by injection Heq as ->.
    + injection Heq as -> ->. apply NoDup_cons in Hnd as [Hx _].
      destruct Hx. rewrite elem_of_app, elem_of_cons. auto.
  - destruct c as [|z c]; simpl in *.
    + injection Heq as -> Heq. apply NoDup_cons in Hnd as [Hx _].
      destruct Hx. rewrite elem_of_app, elem_of_cons. auto.
    + injection Heq as -> Heq. apply NoDup_cons in Hnd as [_ Hnd].
      by destruct (IH c Hnd Heq) as [-> ->].
Qed.

Lemma dequeued_elem ls r :
  r ∈ dequeued_by_run ls → ∃ w, LDequeue w r ∈ ls.
Proof.
  unfold dequeued_by_run. rewrite list_elem_of_omap.
  intros (l & Hl & Heq). destruct l; simplify_eq. eauto.
Qed.

Lemma dequeued_app l1 l2 :
  dequeued_by_run (l1 ++ l2) = dequeued_by_run l1 ++ dequeued_by_run l2.
Proof. apply omap_app. Qed.

Lemma enqueued_app l1 l2 : enqueued (l1 ++ l2) = enqueued l1 ++ enqueued l2.
Proof. apply omap_app. Qed.

Lemma dequeued_In w r ls : LDequeue w r ∈ ls → r ∈ dequeued_by_run ls.
Proof.
  intros Hin. unfold dequeued_by_run. apply list_elem_of_omap.
  by exists (LDequeue w r).
Qed.

Lemma fifo_same_producer cap M ls s p w r1 r2 l1 l2 l3 :
  exec max_attempts (init cap M) ls = Some s →
  NoDup (request_id <$> enqueued ls) →
  ls = l1 ++ LEnqueue p r1 :: l2 ++ LEnqueue p r2 :: l3 →
  LDequeue w r1 ∈ ls → LDequeue w r2 ∈ ls →
  ∃ m1 m2 m3, ls = m1 ++ LDequeue w r1 :: m2 ++ LDequeue w r2 :: m3.
Proof.
  intros Hex Hnd Hls H1 H2.
  apply NoDup_fmap_1 in Hnd.
  pose proof (fifo_from_init _ _ _ _ Hex) as Hfifo.
  assert (NoDup (dequeued_by_run ls)) as Hndd.
  { rewrite Hfifo in Hnd. by apply NoDup_app in Hnd as [? _]. }
  apply list_elem_of_split in H2 as (m & m' & Hm).
  (* the state in which r2 is dequeued *)
  rewrite Hm, exec_app in Hex.
  destruct (exec max_attempts (init cap M) m) as [sm|] eqn:Hexm;
    [|cbn in Hex; congruence].
  change (exec max_attempts sm (LDequeue w r2 :: m') = Some s) in Hex.
  cbn [exec] in Hex.
  destruct (step max_attempts sm (LDequeue w r2)) as [sm'|] eqn:Hstep;
    [|discriminate Hex].
  apply step_inv in Hstep as (_ & Hitems & _).
  apply fifo_from_init in Hexm. rewrite Hitems in Hexm.
  (* r2 sits at one place of the enqueue order *)
  assert (enqueued ls = (enqueued l1 ++ r1 :: enqueued l2) ++ r2 :: enqueued l3) as He1.
  { rewrite Hls. unfold enqueued. rewrite !omap_app. simpl. rewrite !omap_app. simpl.
    by rewrite <-!app_assoc. }
  assert (enqueued ls = dequeued_by_run m ++ r2 :: (items (rq sm') ++ enqueued m')) as He2.
  { rewrite Hm, enqueued_app. simpl. fold (enqueued m'). rewrite Hexm.
    by rewrite <-!app_assoc. }
  rewrite He1 in Hnd. rewrite He1 in He2.
  apply NoDup_app_cons_unique in He2 as [Hdeq _]; [|done].
  assert (r1 ∈ dequeued_by_run m) as Hr1
    by (rewrite <-Hdeq, elem_of_app, elem_of_cons; auto).
  apply dequeued_elem in Hr1 as [w' Hw'].
  apply list_elem_of_split in Hw' as (m1 & m2 & ->).
  assert (w' = w) as ->.
  { rewrite Hm in H1, Hndd. rewrite <-app_assoc in H1, Hndd. simpl in H1, Hndd.
    rewrite dequeued_app in Hndd. simpl in Hndd. fold (dequeued_by_run (m2 ++ LDequeue w r2 :: m')) in Hndd.
    apply NoDup_app in Hndd as (_ & Hnot1 & Hnd2).
    apply NoDup_cons in Hnd2 as [Hnot2 _].
    apply elem_of_app in H1 as [H1|H1].
    - apply dequeued_In in H1. destruct (Hnot1 _ H1). by left.
    - apply elem_of_cons in H1 as [[= ->]|H1]; [done|].
      apply dequeued_In in H1. done. }
  exists m1, m2, m'. by rewrite Hm, <-app_assoc.
Qed.

(** ** Conservation of requests *)

Lemma in_flight_app a b : in_flight (a ++ b) = in_flight a ++ in_flight b.
Proof. apply omap_app. Qed.

Lemma on_reply_tokens r k reply :
  (request_id <$> in_flight [(on_reply r k reply).1])
  ++ (response_to <$> option_list (on_reply r k reply).2) = [request_id r].
Proof. by destruct reply as [text|[reason|reason]]. Qed.

Lemma step_tokens s l s' :
  step max_attempts s l = Some s' →
  tokens s ++ (request_id <$> enqueued [l]) ≡ₚ tokens s'.
Proof.
  intros Hstep. apply step_inv in Hstep. unfold tokens.
  destruct l as [p r|p r|w r|w reply|w|w|].
  - destruct Hstep as (_ & -> & _ & -> & ->). rewrite fmap_app. simpl. solve_Permutation.
  - subst s'. simpl. by rewrite app_nil_r.
  - destruct Hstep as (Hw & -> & _ & -> & ->).
    destruct (insert_split _ _ _ (Processing r 0) Hw) as (a & b & Hws & ->).
    rewrite Hws, !in_flight_app, !fmap_app. simpl. solve_Permutation.
  - destruct Hstep as (r & k & Hw & _ & -> & -> & ->).
    destruct (insert_split _ _ _ (on_reply r k reply).1 Hw) as (a & b & Hws & ->).
    rewrite Hws.
    change ((on_reply r k reply).1 :: b) with ([(on_reply r k reply).1] ++ b).
    change (Processing r k :: b) with ([Processing r k] ++ b).
    rewrite !in_flight_app, !fmap_app.
    trans ((request_id <$> items (rq s)) ++ (request_id <$> in_flight a)
           ++ (request_id <$> in_flight b) ++ (response_to <$> reply_channel s)
           ++ ((request_id <$> in_flight [(on_reply r k reply).1])
               ++ (response_to <$> option_list (on_reply r k reply).2))).
    + rewrite on_reply_tokens. simpl. solve_Permutation.
    + solve_Permutation.
  - destruct Hstep as (r & k & Hw & _ & -> & -> & ->).
    destruct (insert_split _ _ _ Idle Hw) as (a & b & Hws & ->).
    rewrite Hws, !in_flight_app, !fmap_app. simpl. solve_Permutation.
  - destruct Hstep as (Hw & _ & -> & -> & ->).
    destruct (insert_split _ _ _ Stopped Hw) as (a & b & Hws & ->).
    rewrite Hws, !in_flight_app. simpl. by rewrite app_nil_r.
  - destruct Hstep as (Hi & _ & -> & ->). rewrite Hi. simpl. by rewrite app_nil_r.
Qed.

Lemma exec_tokens s ls s' :
  exec max_attempts s ls = Some s' →
  tokens s ++ (request_id <$> enqueued ls) ≡ₚ tokens s'.
Proof.
  revert s. induction ls as [|l ls IH]; intros s Hex.
  - injection Hex as ->. simpl. by rewrite app_nil_r.
  - cbn [exec] in Hex.
    destruct (step max_attempts s l) as [s1|] eqn:Hstep; [|discriminate Hex].
    rewrite <-(IH _ Hex), <-(step_tokens _ _ _ Hstep).
    change (l :: ls) with ([l] ++ ls). rewrite enqueued_app, fmap_app.
    by rewrite <-app_assoc.
Qed.

(** ** Runs without shutdown *)

Lemma elem_of_insert_split {A} (x : A) a b st st' :
  x ∈ a ++ st' :: b → x = st' ∨ x ∈ a ++ st :: b.
Proof. rewrite !elem_of_app, !elem_of_cons. tauto. Qed.

Lemma step_running s l s' :
  running s → l ≠ LShutdown → step max_attempts s l = Some s' → running s'.
Proof.
  intros [Hc Hs] Hl Hstep. apply step_inv in Hstep. unfold running.
  destruct l as [p r|p r|w r|w reply|w|w|]; [| | | | | |done].
  - destruct Hstep as (_ & _ & -> & -> & _). done.
  - by subst s'.
  - destruct Hstep as (Hw & _ & -> & -> & _). split; [done|].
    destruct (insert_split _ _ _ (Processing r 0) Hw) as (a & b & Hws & ->).
    intros [?|Hin]%(elem_of_insert_split _ _ _ Idle); [done|]. by rewrite <-Hws in Hin.
  - destruct Hstep as (r & k & Hw & _ & -> & -> & _). split; [done|].
    destruct (insert_split _ _ _ (on_reply r k reply).1 Hw) as (a & b & Hws & ->).
    intros [Heq|Hin]%(elem_of_insert_split _ _ _ (Processing r k)).
    + by destruct reply as [text|[reason|reason]].
    + by rewrite <-Hws in Hin.
  - destruct Hstep as (r & k & Hw & _ & -> & -> & _). split; [done|].
    destruct (insert_split _ _ _ Idle Hw) as (a & b & Hws & ->).
    intros [?|Hin]%(elem_of_insert_split _ _ _ (Processing r k)); [done|].
    by rewrite <-Hws in Hin.
  - destruct Hstep as (_ & Hcl & _). congruence.
Qed.

Lemma step_workers_length s l s' :
  step max_attempts s l = Some s' → length (workers s') = length (workers s).
Proof.
  intros Hstep. apply step_inv in Hstep.
  destruct l as [p r|p r|w r|w reply|w|w|].
  - by destruct Hstep as (_ & _ & _ & -> & _).
  - by subst s'.
  - destruct Hstep as (_ & _ & _ & -> & _). apply length_insert.
  - destruct Hstep as (r & k & _ & _ & _ & -> & _). apply length_insert.
  - destruct Hstep as (r & k & _ & _ & _ & -> & _). apply length_insert.
  - destruct Hstep as (_ & _ & _ & -> & _). apply length_insert.
  - by destruct Hstep as (_ & _ & -> & _).
Qed.

Lemma exec_running s ls s' :
  running s → LShutdown ∉ ls → exec max_attempts s ls = Some s' →
  running s' ∧ length (workers s') = length (workers s).
Proof.
  revert s. induction ls as [|l ls IH]; intros s Hrun Hno Hex.
  - by injection Hex as ->.
  - cbn [exec] in Hex.
    destruct (step max_attempts s l) as [s1|] eqn:Hstep; [|discriminate Hex].
    apply not_elem_of_cons in Hno as [Hl Hno].
    destruct (IH s1) as [? Hlen]; [by eapply step_running|done|done|].
    split; [done|]. rewrite Hlen. by eapply step_workers_length.
Qed.

(** ** The budget of the workers *)
Lemma budget_insert ws w st st' :
  ws !! w = Some st →
  sum_list (worker_budget max_attempts <$> <[w := st']> ws) + worker_budget max_attempts st
  = sum_list (worker_budget max_attempts <$> ws) + worker_budget max_attempts st'.
Proof.
  intros Hw. destruct (insert_split _ _ _ st' Hw) as (a & b & Hws & ->).
  rewrite Hws, !fmap_app, !sum_list_with_app. simpl. lia.
Qed.

Lemma step_budget s l s' :
  running s → worker_label l = true → step max_attempts s l = Some s' →
  budget max_attempts s' < budget max_attempts s.
Proof.
  intros [Hc _] Hl Hstep. apply step_inv in Hstep. unfold budget.
  destruct l as [p r|p r|w r|w reply|w|w|]; try done.
  - destruct Hstep as (Hw & -> & _ & -> & _).
    pose proof (budget_insert _ _ _ (Processing r 0) Hw) as Hb. simpl in *. lia.
  - destruct Hstep as (r & k & Hw & Hk & -> & -> & _).
    pose proof (budget_insert _ _ _ (on_reply r k reply).1 Hw) as Hb.
    destruct reply as [text|[reason|reason]]; simpl in *; lia.
  - destruct Hstep as (r & k & Hw & Hk & -> & -> & _).
    pose proof (budget_insert _ _ _ Idle Hw) as Hb. simpl in *. lia.
  - destruct Hstep as (_ & Hcl & _). congruence.
Qed.

Lemma worker_run_bounded s ls s' :
  running s → Forall (λ l, worker_label l = true) ls →
  exec max_attempts s ls = Some s' →
  length ls + budget max_attempts s' ≤ budget max_attempts s.
Proof.
  revert s. induction ls as [|l ls IH]; intros s Hrun Hall Hex.
  - injection Hex as ->. simpl. lia.
  - cbn [exec] in Hex.
    destruct (step max_attempts s l) as [s1|] eqn:Hstep; [|discriminate Hex].
    apply Forall_cons in Hall as [Hl Hall].
    assert (l ≠ LShutdown) by (by intros ->).
    pose proof (step_budget _ _ _ Hrun Hl Hstep).
    pose proof (IH s1 (step_running _ _ _ Hrun ltac:(done) Hstep) Hall Hex).
    simpl. lia.
Qed.

(** ** Quiescence and progress *)
Lemma in_flight_lookup ws w r k :
  ws !! w = Some (Processing r k) → r ∈ in_flight ws.
Proof.
  intros Hw. apply list_elem_of_omap. exists (Processing r k).
  split; [by eapply list_elem_of_lookup_2|done].
Qed.

Lemma in_flight_elem ws r :
  r ∈ in_flight ws → ∃ w k, ws !! w = Some (Processing r k).
Proof.
  intros (st & Hst & Heq)%list_elem_of_omap.
  destruct st as [|r' k|]; simplify_eq.
  apply list_elem_of_lookup_1 in Hst as [w Hw]. eauto.
Qed.

Lemma quiescent_idle s :
  running s → 0 < length (workers s) → quiescent max_attempts s →
  items (rq s) = [] ∧ in_flight (workers s) = [].
Proof.
  intros [Hc Hs] Hlen Hq.
  assert (in_flight (workers s) = []) as Hfl.
  { destruct (in_flight (workers s)) as [|r rest] eqn:Hfl; [done|].
    destruct (in_flight_elem (workers s) r) as (w & k & Hw).
    { rewrite Hfl. by left. }
    destruct (decide (k < max_attempts)) as [Hk|Hk].
    - specialize (Hq (LInvoke w (inl "")) eq_refl). simpl in Hq.
      rewrite Hw, bool_decide_eq_true_2 in Hq by done. done.
    - specialize (Hq (LGiveUp w) eq_refl). simpl in Hq.
      rewrite Hw, bool_decide_eq_true_2 in Hq by lia. done. }
  split; [|done].
  destruct (items (rq s)) as [|r rest] eqn:Hi; [done|].
  destruct (lookup_lt_is_Some_2 (workers s) 0 Hlen) as [st Hst].
  destruct st as [|r' k|].
  - specialize (Hq (LDequeue 0 r) eq_refl). simpl in Hq. unfold dequeue in Hq.
    rewrite Hst, Hi, decide_True in Hq by done. done.
  - apply in_flight_lookup in Hst. rewrite Hfl in Hst. by apply elem_of_nil in Hst.
  - destruct Hs. by eapply list_elem_of_lookup_2.
Qed.

Lemma idle_quiescent s :
  closed (rq s) = false → items (rq s) = [] → in_flight (workers s) = [] →
  quiescent max_attempts s.
Proof.
  intros Hc Hi Hfl l Hl.
  assert (∀ w r k, workers s !! w ≠ Some (Processing r k)) as Hno.
  { intros w r k Hw%in_flight_lookup. rewrite Hfl in Hw. by apply elem_of_nil in Hw. }
  destruct l as [p r|p r|w r|w reply|w|w|]; try done; simpl.
  - unfold dequeue. rewrite Hi, Hc. by destruct (workers s !! w) as [[| |]|].
  - destruct (workers s !! w) as [[|r k|]|] eqn:Hw; try done. by destruct (Hno w r k).
  - destruct (workers s !! w) as [[|r k|]|] eqn:Hw; try done. by destruct (Hno w r k).
  - unfold dequeue. rewrite Hi, Hc. by destruct (workers s !! w) as [[| |]|].
Qed.

Lemma worker_progress s :
  running s → 0 < length (workers s) →
  (items (rq s) = [] ∧ in_flight (workers s) = [])
  ∨ ∃ l s', worker_label l = true ∧ step max_attempts s l = Some s'.
Proof.
  intros [Hc Hs] Hlen.
  destruct (in_flight (workers s)) as [|r rest] eqn:Hfl.
  - destruct (items (rq s)) as [|r rest] eqn:Hi; [by left|]. right.
    destruct (lookup_lt_is_Some_2 (workers s) 0 Hlen) as [st Hst].
    destruct st as [|r' k|].
    + exists (LDequeue 0 r). eexists. split; [done|]. simpl. unfold dequeue.
      by rewrite Hst, Hi, decide_True.
    + apply in_flight_lookup in Hst. rewrite Hfl in Hst. by apply elem_of_nil in Hst.
    + destruct Hs. by eapply list_elem_of_lookup_2.
  - right. destruct (in_flight_elem (workers s) r) as (w & k & Hw).
    { rewrite Hfl. by left. }
    destruct (decide (k < max_attempts)) as [Hk|Hk].
    + exists (LInvoke w (inl "")). eexists. split; [done|]. simpl.
      by rewrite Hw, bool_decide_eq_true_2.
    + exists (LGiveUp w). eexists. split; [done|]. simpl.
      by rewrite Hw, bool_decide_eq_true_2 by lia.
Qed.

Lemma drain n s :
  budget max_attempts s ≤ n → running s → 0 < length (workers s) →
  ∃ ls s', Forall (λ l, worker_label l = true) ls
    ∧ exec max_attempts s ls = Some s' ∧ quiescent max_attempts s'.
Proof.
  revert s. induction n as [|n IH]; intros s Hn Hrun Hlen.
  - destruct (worker_progress s Hrun Hlen) as [[Hi Hfl]|(l & s1 & Hl & Hstep)].
    + exists [], s. repeat split; [constructor|]. destruct Hrun. by apply idle_quiescent.
    + pose proof (step_budget _ _ _ Hrun Hl Hstep). lia.
  - destruct (worker_progress s Hrun Hlen) as [[Hi Hfl]|(l & s1 & Hl & Hstep)].
    + exists [], s. repeat split; [constructor|]. destruct Hrun. by apply idle_quiescent.
    + pose proof (step_budget _ _ _ Hrun Hl Hstep).
      assert (l ≠ LShutdown) as Hns by (by intros ->).
      destruct (IH s1) as (ls & s' & Hall & Hex & Hq).
      { lia. }
      { by eapply step_running. }
      { by rewrite (step_workers_length _ _ _ Hstep). }
      exists (l :: ls), s'. repeat split; [by constructor| |done].
      cbn [exec]. by rewrite Hstep.
Qed.

Lemma worker_only_enqueued ls :
  Forall (λ l, worker_label l = true) ls → enqueued ls = [].
Proof.
  induction 1 as [|l ls Hl _ IH]; [done|].
  change (l :: ls) with ([l] ++ ls). rewrite enqueued_app, IH. by destruct l.
Qed.

Lemma worker_only_no_shutdown ls :
  Forall (λ l, worker_label l = true) ls → LShutdown ∉ ls.
Proof.
  intros Hall Hin. rewrite Forall_forall in Hall. by specialize (Hall _ Hin).
Qed.

Lemma init_running cap M : running (init cap M).
Proof. split; [done|]. simpl. by intros [? _]%elem_of_replicate. Qed.

Lemma tokens_init cap M : tokens (init cap M) = [].
Proof.
  unfold tokens. simpl.
  assert (in_flight (replicate M Idle) = []) as ->; [|done].
  induction M as [|M IH]; [done|]. simpl. apply IH.
Qed.

Lemma quiescent_answered cap M ls s ls' s' :
  0 < M → exec max_attempts (init cap M) ls = Some s → LShutdown ∉ ls →
  Forall (λ l, worker_label l = true) ls' → exec max_attempts s ls' = Some s' →
  quiescent max_attempts s' → answered_exactly_once (enqueued ls) (reply_channel s').
Proof.
  intros HM Hex Hno Hall Hex' Hq.
  destruct (exec_running _ _ _ (init_running cap M) Hno Hex) as [Hrun Hlen].
  destruct (exec_running _ _ _ Hrun (worker_only_no_shutdown _ Hall) Hex') as [Hrun' Hlen'].
  destruct (quiescent_idle s' Hrun') as [Hi Hfl]; [|done|].
  { rewrite Hlen', Hlen. simpl. by rewrite length_replicate. }
  pose proof (exec_tokens _ _ _ Hex) as Ht.
  pose proof (exec_tokens _ _ _ Hex') as Ht'.
  rewrite (worker_only_enqueued _ Hall), app_nil_r in Ht'.
  rewrite tokens_init in Ht. simpl in Ht.
  unfold answered_exactly_once. trans (tokens s').
  - unfold tokens. by rewrite Hi, Hfl.
  - by rewrite <-Ht', <-Ht.
Qed.

(** C5. In every run of the engine from its initial state, with at least
    one worker and no shutdown, and whatever the producers, the workers and
    the backend do: the responses produced so far answer enqueued requests,
    at most one each; the workers left to run act at most [budget] times
    (no request can be retried or held forever); whenever no worker can act
    any more every enqueued request has exactly one Response; and such a
    continuation exists. *)
Theorem every_request_answered_once cap M ls s :
  0 < M → exec max_attempts (init cap M) ls = Some s → LShutdown ∉ ls →
  (response_to <$> reply_channel s) ⊆+ (request_id <$> enqueued ls)
  ∧ (∀ ls' s', Forall (λ l, worker_label l = true) ls' →
       exec max_attempts s ls' = Some s' →
       length ls' ≤ budget max_attempts s
       ∧ (quiescent max_attempts s' →
          answered_exactly_once (enqueued ls) (reply_channel s')))
  ∧ (∃ ls' s', Forall (λ l, worker_label l = true) ls'
       ∧ exec max_attempts s ls' = Some s'
       ∧ quiescent max_attempts s'
       ∧ answered_exactly_once (enqueued ls) (reply_channel s')).
Proof.
  intros HM Hex Hno.
  destruct (exec_running _ _ _ (init_running cap M) Hno Hex) as [Hrun Hlen].
  split; [|split].
  - pose proof (exec_tokens _ _ _ Hex) as Ht. rewrite tokens_init in Ht. simpl in Ht.
    rewrite Ht. unfold tokens. rewrite app_assoc. by apply submseteq_inserts_l.
  - intros ls' s' Hall Hex'. split.
    + pose proof (worker_run_bounded _ _ _ Hrun Hall Hex'). lia.
    + by eapply quiescent_answered.
  - destruct (drain (budget max_attempts s) s) as (ls' & s' & Hall & Hex' & Hq);
      [done|done| |].
    { rewrite Hlen. simpl. by rewrite length_replicate. }
    exists ls', s'. repeat split; try done. by eapply quiescent_answered.
Qed.

(** ** Across producers *)

Lemma cross_producer_orders :
  ∃ (a b : Request) (run_ab run_ba : list label) (s_ab s_ba : state),
    exec max_attempts (init None 2) run_ab = Some s_ab
    ∧ exec max_attempts (init None 2) run_ba = Some s_ba
    ∧ LEnqueue 1 a ∈ run_ab ∧ LEnqueue 2 b ∈ run_ab
    ∧ LEnqueue 1 a ∈ run_ba ∧ LEnqueue 2 b ∈ run_ba
    ∧ dequeued_by_run run_ab = [a; b]
    ∧ dequeued_by_run run_ba = [b; a].
Proof.
  exists Sample.hello, Sample.again,
    [LEnqueue 1 Sample.hello; LEnqueue 2 Sample.again;
     LDequeue 0 Sample.hello; LDequeue 1 Sample.again],
    [LEnqueue 2 Sample.again; LEnqueue 1 Sample.hello;
     LDequeue 0 Sample.again; LDequeue 1 Sample.hello].
  eexists _, _. split; [reflexivity|]. split; [reflexivity|].
  rewrite !list_elem_of_In. simpl. tauto.
Qed.

(** C6. In every run from the initial state with distinct request ids: when
    a producer enqueues R1 and later R2, and one worker dequeues both, that
    worker dequeues R1 before R2. Across two producers both dequeue orders
    occur, according to the order in which their enqueues reach the
    queue. *)
Theorem fifo_per_producer :
  (∀ cap M ls s p w r1 r2 l1 l2 l3,
      exec max_attempts (init cap M) ls = Some s →
      NoDup (request_id <$> enqueued ls) →
      ls = l1 ++ LEnqueue p r1 :: l2 ++ LEnqueue p r2 :: l3 →
      LDequeue w r1 ∈ ls → LDequeue w r2 ∈ ls →
      ∃ m1 m2 m3, ls = m1 ++ LDequeue w r1 :: m2 ++ LDequeue w r2 :: m3)
  ∧ (∃ (a b : Request) (run_ab run_ba : list label) (s_ab s_ba : state),
        exec max_attempts (init None 2) run_ab = Some s_ab
        ∧ exec max_attempts (init None 2) run_ba = Some s_ba
        ∧ LEnqueue 1 a ∈ run_ab ∧ LEnqueue 2 b ∈ run_ab
        ∧ LEnqueue 1 a ∈ run_ba ∧ LEnqueue 2 b ∈ run_ba
        ∧ dequeued_by_run run_ab = [a; b]
        ∧ dequeued_by_run run_ba = [b; a]).
Proof.
  split; [|apply cross_producer_orders].
  intros cap M ls s p w r1 r2 l1 l2 l3. apply fifo_same_producer.
Qed.

End EngineFacts.

(** ** Concrete runs of the engine *)

Section EngineRuns.
Import Engine Sample.

(** The scenarios of section 8: an answer at the first attempt, and three
    timeouts followed by an answer with five attempts allowed. *)
Example first_attempt_succeeds :
  AIWorker_process 5 (λ _ _, inl "hi there") hello
  = (mkResponse 1 (Success "hi there"), 1).
Proof. reflexivity. Qed.

Example three_timeouts_then_success :
  AIWorker_process 5
    (λ n _, if bool_decide (n < 3) then inr (Retryable "timeout") else inl "ok") again
  = (mkResponse 2 (Success "ok"), 4).
Proof. reflexivity. Qed.

Lemma retry_bound_witness :
  (∀ n, ∃ reason, always_timeout n (payload hello) = inr (Retryable reason))
  ∧ AIWorker_process 3 always_timeout hello
    = (mkResponse (request_id hello) (Failure RetriesExhausted), 3).
Proof.
  split; [intros n; by eexists|].
  apply (retry_bound 3 always_timeout hello). intros n. by eexists.
Defined.

Lemma fifo_witness :
  exec 3 (init None 1) one_worker_run = Some one_worker_state
  ∧ NoDup (request_id <$> enqueued one_worker_run)
  ∧ LDequeue 0 hello ∈ one_worker_run
  ∧ LDequeue 0 again ∈ one_worker_run
  ∧ ∃ m1 m2 m3,
      one_worker_run = m1 ++ LDequeue 0 hello :: m2 ++ LDequeue 0 again :: m3.
Proof.
  assert (NoDup (request_id <$> enqueued one_worker_run)) as Hnd.
  { apply (bool_decide_unpack _). reflexivity. }
  assert (LDequeue 0 hello ∈ one_worker_run) as H1.
  { apply list_elem_of_In. simpl. tauto. }
  assert (LDequeue 0 again ∈ one_worker_run) as H2.
  { apply list_elem_of_In. simpl. tauto. }
  split; [reflexivity|]. split; [exact Hnd|]. split; [exact H1|]. split; [exact H2|].
  apply (proj1 (fifo_per_producer 3) None 1 one_worker_run one_worker_state
           1 0 hello again [] []
           [LDequeue 0 hello; LInvoke 0 (inl "hi there"); LDequeue 0 again]);
    [reflexivity|exact Hnd|reflexivity|exact H1|exact H2].
Defined.

Lemma answered_once_witness :
  0 < 2
  ∧ exec 3 (init None 2) two_then_work = Some two_then_work_state
  ∧ (LShutdown ∉ two_then_work)
  ∧ (response_to <$> reply_channel two_then_work_state)
      ⊆+ (request_id <$> enqueued two_then_work)
  ∧ (∀ ls' s', Forall (λ l, worker_label l = true) ls' →
       exec 3 two_then_work_state ls' = Some s' →
       length ls' ≤ budget 3 two_then_work_state
       ∧ (quiescent 3 s' →
          answered_exactly_once (enqueued two_then_work) (reply_channel s')))
  ∧ (∃ ls' s', Forall (λ l, worker_label l = true) ls'
       ∧ exec 3 two_then_work_state ls' = Some s'
       ∧ quiescent 3 s'
       ∧ answered_exactly_once (enqueued two_then_work) (reply_channel s')).
Proof.
  assert (LShutdown ∉ two_then_work) as Hno.
  { intros Hin. apply list_elem_of_In in Hin. simpl in Hin. intuition discriminate. }
  split; [lia|]. split; [reflexivity|]. split; [exact Hno|].
  apply (every_request_answered_once 3 None 2 two_then_work two_then_work_state);
    [lia|reflexivity|exact Hno].
Defined.

End EngineRuns.

(** * Part III: further facts about main.py *)

Section MoreMainFacts.
Context `{PyRepr}.
Variable E : env.
Variable C : components.

Lemma quiet_no_calls evs : Forall quiet evs → calls evs = [].
Proof.
  induction 1 as [|e evs He _ IH]; [done|].
  change (e :: evs) with ([e] ++ evs). rewrite calls_app, IH.
  by destruct e as [[]| | | | |].
Qed.

Lemma load_json_full file_name w :
  ∃ v evs, load_json E file_name w = (Return v, w, evs) ∧ Forall quiet evs.
Proof.
  unfold load_json, try_except_Exception, bind, open_, json_load, logging_info,
    logging_error, emit, raise, ret.
  destruct (env_open E file_name) as [e|[e|v]]; simpl.
  - eexists _, _. split; [reflexivity|]. by repeat constructor.
  - eexists _, _. split; [reflexivity|]. by repeat constructor.
  - destruct (is_not_None v && _); simpl; eexists _, _;
      (split; [reflexivity|]); by repeat constructor.
Qed.

Lemma logging_setup_full w :
  ∃ o evs, logging_setup E w = (o, w, evs) ∧ Forall quiet evs.
Proof.
  unfold logging_setup, bind, logging_info, emit, raise, ret.
  destruct (env_logs_dir_exists E), (env_makedirs E), (env_open_log E); simpl;
    eexists _, _; (split; [reflexivity|]); by repeat constructor.
Qed.

Lemma parse_args_full w :
  parse_args E w
  = match env_argv E with
    | ArgvExit n => (SystemExit n, w, [])
    | ArgvOptions s m =>
        (Return (Args (settings_path E s) (messages_path E m)), w, [])
    end.
Proof. unfold parse_args. by destruct (env_argv E). Qed.

Lemma exit_full signum frame w :
  ∃ o w', exit_ E C signum frame w
          = (o, w', [ELog WARNING (MsgText "Killing all threads...");
                     ETerminate (env_pid E)])
    ∧ (∀ a, o ≠ Return a)
    ∧ (env_sigterm_delivered E = false ∨ w_sigterm w = SIG_IGN → o = SystemExit 0).
Proof.
  unfold exit_, psutil_terminate, os_getpid, bind, logging_warning, emit, sys_exit, ret.
  rewrite bool_decide_eq_true_2 by done. simpl.
  destruct (env_sigterm_delivered E); simpl.
  - destruct (w_sigterm w) eqn:Hs; simpl.
    + eexists _, _. split; [reflexivity|]. split; [done|]. by intros [|].
    + eexists _, _. split; [reflexivity|]. done.
    + destruct (on_sigterm C w) as [[] w1]; simpl; eexists _, _;
        (split; [reflexivity|]); (split; [done|]); by intros [|].
  - eexists _, _. split; [reflexivity|]. done.
Qed.

(** X1. [exit_] never returns to its caller; when the SIGTERM it sends to
    its own process is not delivered or is ignored, it ends by raising
    [SystemExit(0)]. *)
Theorem exit_never_returns signum frame w :
  (∀ a, outcome_of (exit_ E C signum frame w) ≠ Return a)
  ∧ (env_sigterm_delivered E = false ∨ w_sigterm w = SIG_IGN →
     outcome_of (exit_ E C signum frame w) = SystemExit 0).
Proof.
  destruct (exit_full signum frame w) as (o & w' & Hr & Hno & H0).
  rewrite Hr. unfold outcome_of. simpl. by split.
Qed.

Ltac walk_step :=
  match goal with
  | |- context [logging_setup E ?w] =>
      let o := fresh "o" in let evs := fresh "evs" in
      let Hr := fresh "Hsetup" in let Hq := fresh "Hq" in
      destruct (logging_setup_full w) as (o & evs & Hr & Hq);
      rewrite !Hr; destruct o; simpl
  | |- context [parse_args E ?w] =>
      rewrite !(parse_args_full w);
      match goal with
      | Ha : env_argv E = _ |- _ => rewrite !Ha
      | _ => destruct (env_argv E) eqn:?
      end; simpl
  | |- context [load_json E ?f ?w] =>
      let v := fresh "v" in let evs := fresh "evs" in
      let Hr := fresh "Hload" in let Hq := fresh "Hq" in
      destruct (load_json_full f w) as (v & evs & Hr & Hq); rewrite !Hr; simpl
  | |- context [exit_ E C ?a ?b ?w] =>
      let o := fresh "o" in let w' := fresh "w" in
      let Hr := fresh "Hexit" in let Hno := fresh "Hno" in
      destruct (exit_full a b w) as (o & w' & Hr & Hno & _);
      rewrite !Hr; destruct o; [by destruct (Hno _ eq_refl)|..]; simpl
  | |- context [call ?c ?args ?f ?w] =>
      let o := fresh "o" in let w' := fresh "w" in let Hf := fresh "Hcall" in
      unfold call at 1; destruct (f w) as [o w'] eqn:Hf; destruct o; simpl
  | |- context [getattr C ?o ?n ?w] =>
      let Hg := fresh "Hget" in
      unfold getattr at 1; destruct (w_heap w !! o ≫= lookup n) eqn:Hg; simpl
  end.

Ltac walk_main :=
  unfold main, main_wiring, main_startup, bind; repeat walk_step;
  unfold setattr, ret; simpl.

(** X2. [main] never returns normally: it ends in an exit, a kill, an
    exception, an interrupt, or not at all. *)
Theorem main_never_returns w a : outcome_of (main E C w) ≠ Return a.
Proof.
  unfold outcome_of. walk_main; done.
Qed.

Lemma terminate_elem (evs : list event) p : ETerminate p ∈ evs ↔ p ∈ omap terminated_pid evs.
Proof.
  rewrite list_elem_of_omap. split.
  - intros Hin. by exists (ETerminate p).
  - intros (e & Hin & He). destruct e; simplify_eq/=. done.
Qed.

Lemma warning_elem (evs : list event) m : ELog WARNING m ∈ evs ↔ m ∈ omap warning_of evs.
Proof.
  rewrite list_elem_of_omap. split.
  - intros Hin. by exists (ELog WARNING m).
  - intros (e & Hin & He). destruct e as [[]| | | | |]; simplify_eq/=. done.
Qed.

Lemma quiet_no_terminate evs : Forall quiet evs → omap terminated_pid evs = [].
Proof.
  induction 1 as [|e evs He _ IH]; [done|].
  change (e :: evs) with ([e] ++ evs). rewrite omap_app, IH.
  by destruct e as [[]| | | | |].
Qed.

Lemma quiet_no_warning evs : Forall quiet evs → omap warning_of evs = [].
Proof.
  induction 1 as [|e evs He _ IH]; [done|].
  change (e :: evs) with ([e] ++ evs). rewrite omap_app, IH.
  by destruct e as [[]| | | | |].
Qed.

Ltac not_in_list Hx :=
  clear -Hx; exfalso; apply list_elem_of_In in Hx; simpl in Hx;
  repeat (destruct Hx as [Hx|Hx]; [discriminate Hx|]); exact Hx.

Ltac in_list :=
  solve [repeat first [apply list_elem_of_here | apply list_elem_of_further]].

(** A leaf of the walk: the events are a quiet prefix (setup and the two
    loads) followed by the calls into the components and [exit_]. *)
Ltac split_quiet_prefix :=
  rewrite <-?app_assoc, ?app_nil_r; simpl;
  lazymatch goal with
  | |- ∃ pre rest, _ ∧ ?a ++ ?b ++ ?c ++ ?t = _ ∧ _ =>
      exists (a ++ b ++ c), t;
      split; [by repeat apply Forall_app_2|];
      split; [by rewrite <-!app_assoc|]
  | |- ∃ pre rest, _ ∧ ?a = _ ∧ _ =>
      exists a, []; split; [done|]; split; [by rewrite app_nil_r|]
  end.

Lemma main_shape_core w :
  ∃ pre rest, Forall quiet pre ∧ events_of (main E C w) = pre ++ rest
    ∧ exit_shape E rest.
Proof.
  remember (main E C w) as r eqn:Hr. revert Hr.
  walk_main; intros ->; unfold events_of; simpl;
    split_quiet_prefix; unfold exit_shape; simpl;
    first [ left; done
          | right; split; [done|]; split; [done|];
            intros Hx; not_in_list Hx ].
Qed.

Lemma main_wiring_core w :
  ∃ pre rest, Forall quiet pre ∧ events_of (main E C w) = pre ++ rest
    ∧ wiring_shape C rest (main E C w).
Proof.
  remember (main E C w) as r eqn:Hr. revert Hr.
  walk_main; intros ->; unfold events_of; simpl;
    split_quiet_prefix; unfold wiring_shape, outcome_of, world_of; simpl;
    first [ left; intros Hx; not_in_list Hx
          | right; eexists _, _, _, _, _, _; split; [eassumption|];
            intros Hn; first [ congruence | done ] ].
Qed.

Lemma main_shape w :
  (omap terminated_pid (events_of (main E C w)) = [env_pid E]
   ∧ omap warning_of (events_of (main E C w)) = [MsgText "Killing all threads..."]
   ∧ calls (events_of (main E C w)) = startup_sequence)
  ∨ (omap terminated_pid (events_of (main E C w)) = []
     ∧ omap warning_of (events_of (main E C w)) = []
     ∧ (Returned "BotHandler.bot_start" ∉ calls (events_of (main E C w)))).
Proof.
  destruct (main_shape_core w) as (pre & rest & Hq & -> & Hshape).
  rewrite calls_app, !omap_app, (quiet_no_calls _ Hq), (quiet_no_terminate _ Hq),
    (quiet_no_warning _ Hq). simpl. exact Hshape.
Qed.

(** X3. [main] runs [exit_] (its warning is logged, its own process is
    signalled) exactly when [bot_start] has returned. *)
Theorem exit_runs_iff_bot_start_returned w :
  (ETerminate (env_pid E) ∈ events_of (main E C w)
   ↔ Returned "BotHandler.bot_start" ∈ calls (events_of (main E C w)))
  ∧ (ELog WARNING (MsgText "Killing all threads...") ∈ events_of (main E C w)
     ↔ Returned "BotHandler.bot_start" ∈ calls (events_of (main E C w))).
Proof.
  rewrite terminate_elem, warning_elem.
  destruct (main_shape w) as [(-> & -> & ->)|(-> & -> & Hno)].
  - split; split; intros _; in_list.
  - split; split; intros Hx; first [done | by apply elem_of_nil in Hx].
Qed.

(** X4. When the constructor of BotHandler gives instances of class
    BotHandler that have no [requests_queue], a run of [main] in which it
    has returned ends on line 146 with Python's AttributeError for that
    attribute: the three constructions are all the calls [main] made, and
    nothing was started. *)
Theorem missing_requests_queue w :
  (∀ settings messages ai_handler w0 bot_handler w1,
     BotHandler_new C settings messages ai_handler w0 = (Return bot_handler, w1) →
     type_name C bot_handler w1 = "BotHandler"
     ∧ w_heap w1 !! bot_handler ≫= lookup "requests_queue" = None) →
  Returned "BotHandler.BotHandler" ∈ calls (events_of (main E C w)) →
  outcome_of (main E C w)
  = Raise (Exn "AttributeError" "'BotHandler' object has no attribute 'requests_queue'")
  ∧ calls (events_of (main E C w)) = take 6 startup_sequence.
Proof.
  intros Hbot. destruct (main_wiring_core w) as (pre & rest & Hq & -> & Hshape).
  rewrite calls_app, (quiet_no_calls _ Hq). simpl. intros Hb.
  destruct Hshape as [Hno|(s & m & ai & w0 & bot & w1 & Hnew & Hsh)]; [done|].
  destruct (Hbot _ _ _ _ _ _ Hnew) as [Hty Hnone].
  destruct (Hsh Hnone) as (-> & _ & Hc). by rewrite Hty.
Qed.

Lemma bind_Return_run {A B} (m : M A) (k : A → M B) w a w1 t1 :
  m w = (Return a, w1, t1) →
  bind m k w = let '(o, w2, t2) := k a w1 in (o, w2, t1 ++ t2).
Proof. unfold bind. by intros ->. Qed.

Lemma bind_SystemExit {A B} (m : M A) (k : A → M B) w n w1 t1 :
  m w = (SystemExit n, w1, t1) → bind m k w = (SystemExit n, w1, t1).
Proof. unfold bind. by intros ->. Qed.

(** X5. When [argparse] exits (as for [--version]), [main] ends with that
    exit status after the logging setup, whose events (the logs directory,
    the log file) are all that happened: no file is loaded, no component
    is called. *)
Theorem main_stops_when_argparse_exits w n :
  outcome_of (logging_setup E w) = Return tt →
  env_argv E = ArgvExit n →
  main E C w = (SystemExit n, w, events_of (logging_setup E w)).
Proof.
  intros Hs Ha. destruct (logging_setup_full w) as (o & evs & Hr & _).
  rewrite Hr in Hs |- *. unfold outcome_of, events_of in *. simpl in *. subst o.
  unfold main, main_wiring. rewrite bind_assoc, (bind_Return_run _ _ _ _ _ _ Hr).
  rewrite bind_assoc, (bind_SystemExit _ _ w n w []).
  - by rewrite app_nil_r.
  - by rewrite parse_args_full, Ha.
Qed.

(** X6. When [logging_setup] does not return, [main] ends as it did and does
    nothing more. *)
Theorem logging_setup_failure_is_fatal w :
  (∀ a, outcome_of (logging_setup E w) ≠ Return a) →
  main E C w = logging_setup E w.
Proof.
  intros Hs. unfold main, main_wiring. rewrite !bind_assoc. unfold bind at 1.
  unfold outcome_of in Hs.
  destruct (logging_setup E w) as [[o w1] t]. simpl in Hs.
  destruct o; try done. by destruct (Hs a).
Qed.

(** X7. [logging_setup] leaves the world alone; it returns exactly when the
    logs directory exists or can be made and the log file opens; it makes
    the directory exactly when it is missing, never opens the log file
    after a failed [makedirs], and logs its message exactly when it
    returns. *)
Theorem logging_setup_behaviour w :
  world_of (logging_setup E w) = w
  ∧ (outcome_of (logging_setup E w) = Return tt
     ↔ (env_logs_dir_exists E = true ∨ env_makedirs E = None)
       ∧ env_open_log E = None)
  ∧ (EMakedirs LOGS_DIR ∈ events_of (logging_setup E w)
     ↔ env_logs_dir_exists E = false)
  ∧ (ELog INFO (MsgText "logging setup is complete") ∈ events_of (logging_setup E w)
     ↔ outcome_of (logging_setup E w) = Return tt)
  ∧ (∀ p, EOpenLog p ∈ events_of (logging_setup E w) →
          env_logs_dir_exists E = true ∨ env_makedirs E = None).
Proof.
  unfold logging_setup, bind, logging_info, emit, raise, ret,
    world_of, outcome_of, events_of.
  destruct (env_logs_dir_exists E), (env_makedirs E), (env_open_log E); simpl;
    (split; [done|]);
    (split; [split; [try done; by auto|intros [[?|?] ?]; done]|]);
    (split; [split; intros Hx; first [done | in_list | not_in_list Hx]|]);
    (split; [split; intros Hx; first [done | in_list | not_in_list Hx]|]);
    intros p Hx; first [by auto | not_in_list Hx].
Qed.

(** X8. Once logging is set up and the arguments parse, [main] loads the
    settings file, then the messages file, then calls the Authenticator
    constructor with the settings just loaded; each file is the one given
    on the command line, else the one named by the environment variable,
    else the default name. *)
Theorem main_loads_settings_then_messages w s m :
  outcome_of (logging_setup E w) = Return tt →
  env_argv E = ArgvOptions s m →
  (∃ settings tl,
      outcome_of (load_json E (settings_path E s) w) = Return settings
      ∧ events_of (main E C w)
        = events_of (logging_setup E w)
          ++ events_of (load_json E (settings_path E s) w)
          ++ events_of (load_json E (messages_path E m) w)
          ++ ECall "Authenticator.Authenticator" [VJson settings] :: tl)
  ∧ (∀ f, s = Some f → settings_path E s = f)
  ∧ (s = None →
     settings_path E s
     = default "settings.json" (env_environ E !! "TELEGRAMUS_SETTINGS_FILE"))
  ∧ (∀ f, m = Some f → messages_path E m = f)
  ∧ (m = None →
     messages_path E m
     = default "messages.json" (env_environ E !! "TELEGRAMUS_MESSAGES_FILE")).
Proof.
  intros Hs Ha.
  split; [|by repeat split; intros; subst].
  destruct (logging_setup_full w) as (o & evs & Hr & _).
  rewrite Hr in Hs |- *. unfold outcome_of in Hs. simpl in Hs. subst o.
  destruct (load_json_full (settings_path E s) w) as (v1 & evs1 & Hr1 & _).
  destruct (load_json_full (messages_path E m) w) as (v2 & evs2 & Hr2 & _).
  assert (parse_args E w
          = (Return (Args (settings_path E s) (messages_path E m)), w, [])) as Hargs.
  { by rewrite parse_args_full, Ha. }
  unfold main, main_wiring.
  rewrite bind_assoc, (bind_Return_events _ _ _ _ _ _ Hr).
  rewrite bind_assoc, (bind_Return_events _ _ _ _ _ _ Hargs).
  simpl args_settings. simpl args_messages.
  rewrite bind_assoc, (bind_Return_events _ _ _ _ _ _ Hr1).
  rewrite bind_assoc, (bind_Return_events _ _ _ _ _ _ Hr2).
  rewrite bind_assoc.
  match goal with
  | |- context [events_of (bind (call ?c ?a ?f) ?k ?w)] =>
      destruct (call_bind_events c a f k w) as [rest ->]
  end.
  exists v1, rest. rewrite Hr1, Hr2. by split.
Qed.

(** X9. [load_json] logs exactly two records: the file being loaded, then
    either the loaded document (at info level) or an error; it returns
    [None] exactly when the second record is an error. *)
Theorem load_json_log file_name w :
  ∃ second,
    events_of (load_json E file_name w)
    = [ELog INFO (MsgText ("Loading " +:+ file_name +:+ "...")); second]
    ∧ (outcome_of (load_json E file_name w) = Return PyNone
       ↔ ∃ msg, second = ELog ERROR msg)
    ∧ (∀ v, outcome_of (load_json E file_name w) = Return v → v ≠ PyNone →
            second = ELog INFO (MsgText ("Loaded json: " +:+ py_str v))).
Proof.
  unfold load_json, try_except_Exception, bind, open_, json_load, logging_info,
    logging_error, emit, raise, ret, events_of, outcome_of.
  destruct (env_open E file_name) as [e|[e|v]]; simpl.
  - eexists. split; [reflexivity|]. split; [split; eauto|]. by intros v [= <-].
  - eexists. split; [reflexivity|]. split; [split; eauto|]. by intros v [= <-].
  - destruct (is_not_None v && _) eqn:Hv; simpl.
    + eexists. split; [reflexivity|]. split; [|by intros v' [= <-]].
      split; [|by intros [msg [=]]]. intros [= ->]. done.
    + eexists. split; [reflexivity|]. split; [split; eauto|]. by intros v' [= <-].
Qed.

(** X10. With a [repr] of floats that is never empty, the only documents
    [load_json] turns into [None] are [null] and the empty string: any
    other document, the falsy ones included, is returned. *)
Theorem load_json_rejects_only_null_and_empty file_name w v :
  (∀ x, repr_float x ≠ "") →
  env_open E file_name = inr (Json v) →
  (outcome_of (load_json E file_name w) = Return PyNone ↔ v = PyNone ∨ v = PyStr "")
  ∧ (v ≠ PyNone → v ≠ PyStr "" → outcome_of (load_json E file_name w) = Return v).
Proof.
  intros Hfloat Hopen.
  pose proof (py_str_empty v Hfloat) as Hempty.
  unfold load_json, try_except_Exception, bind, open_, json_load, logging_info,
    logging_error, emit, raise, ret, outcome_of.
  rewrite Hopen. simpl.
  destruct (decide (py_str v = "")) as [Hs|Hs].
  - rewrite Hs. simpl. rewrite andb_false_r. simpl.
    split; [split; [intros _; right; by apply Hempty|done]|].
    intros _ Hne. destruct Hne. by apply Hempty.
  - rewrite (bool_decide_eq_true_2 (0 < String.length (py_str v))).
    2:{ destruct (py_str v); [done|simpl; lia]. }
    rewrite andb_true_r.
    destruct v as [|b|n|x|t|l|d]; simpl in *;
      (split; [split|]; [..|by intros]);
      try (by intros [=]); try (by intros [[=]|[=]]); by left.
Qed.

Lemma call_elem (evs : list event) callee a :
  ECall callee a ∈ evs ↔ a ∈ omap (call_args callee) evs.
Proof.
  rewrite list_elem_of_omap. split.
  - intros Hin. exists (ECall callee a). split; [done|]. simpl.
    by rewrite String.eqb_refl.
  - intros (e & Hin & He). destruct e; simplify_eq/=.
    destruct (String.eqb callee0 callee) eqn:Heq; simplify_eq.
    apply String.eqb_eq in Heq. by subst.
Qed.

Lemma quiet_no_call_args callee evs :
  Forall quiet evs → omap (call_args callee) evs = [].
Proof.
  induction 1 as [|e evs He _ IH]; [done|].
  change (e :: evs) with ([e] ++ evs). rewrite omap_app, IH.
  by destruct e as [[]| | | | |].
Qed.

Lemma main_call_args_core w s m :
  env_argv E = ArgvOptions s m →
  ∃ pre rest, Forall quiet pre ∧ events_of (main E C w) = pre ++ rest
    ∧ call_shape E C w s m rest.
Proof.
  intros Ha. unfold call_shape.
  remember (events_of (main E C w)) as evs eqn:Hevs. revert Hevs.
  unfold events_of. walk_main; intros ->; split_quiet_prefix; simpl;
    first [ left; done
          | right; eexists _, _, _, _; unfold outcome_of; simpl;
            repeat split; eauto ].
Qed.

(** X11. Whenever [main] calls the BotHandler constructor, its arguments
    are the settings and the messages that [load_json] returned and the
    instance the AIHandler constructor returned; that AIHandler was given
    the same settings and the instance the Authenticator constructor
    returned, itself constructed from the same settings and nothing else. *)
Theorem constructor_arguments w s m args :
  env_argv E = ArgvOptions s m →
  ECall "BotHandler.BotHandler" args ∈ events_of (main E C w) →
  ∃ settings messages authenticator ai_handler,
    outcome_of (load_json E (settings_path E s) w) = Return settings
    ∧ outcome_of (load_json E (messages_path E m) w) = Return messages
    ∧ args = [VJson settings; VJson messages; VRef ai_handler]
    ∧ ECall "Authenticator.Authenticator" [VJson settings] ∈ events_of (main E C w)
    ∧ ECall "AIHandler.AIHandler" [VJson settings; VRef authenticator]
        ∈ events_of (main E C w)
    ∧ (∀ a, ECall "Authenticator.Authenticator" a ∈ events_of (main E C w) →
            a = [VJson settings])
    ∧ (∃ w0 w1, Authenticator_new C settings w0 = (Return authenticator, w1))
    ∧ (∃ w0 w1, AIHandler_new C settings authenticator w0 = (Return ai_handler, w1)).
Proof.
  intros Ha Hin. apply call_elem in Hin.
  destruct (main_call_args_core w s m Ha) as (pre & rest & Hq & Hev & Hshape).
  rewrite Hev. setoid_rewrite call_elem. rewrite Hev in Hin.
  rewrite omap_app, (quiet_no_call_args _ _ Hq) in Hin. simpl in Hin.
  setoid_rewrite omap_app. setoid_rewrite (quiet_no_call_args _ _ Hq). simpl.
  destruct Hshape
    as [Hnone|(st & ms & au & ai & Hb & Hai & Hau & Hl1 & Hl2 & Hc1 & Hc2)].
  - rewrite Hnone in Hin. by apply elem_of_nil in Hin.
  - rewrite Hb in Hin. apply list_elem_of_singleton in Hin. subst args.
    exists st, ms, au, ai. repeat split; try done.
    + rewrite Hau. by left.
    + rewrite Hai. by left.
    + intros a Ha'. rewrite Hau in Ha'. by apply list_elem_of_singleton in Ha'.
Qed.

(** X12. The wiring of [main] changes nothing but
    [ai_handler.requests_queue]: every other instance, every other
    attribute of the AI handler and the signal table are as the BotHandler
    constructor left them. *)
Theorem wiring_changes_only_the_queue w authenticator ai_handler bot_handler w' evs :
  main_wiring E C w = (Return (authenticator, ai_handler, bot_handler), w', evs) →
  ∃ settings messages w0 w1,
    BotHandler_new C settings messages ai_handler w0 = (Return bot_handler, w1)
    ∧ w_sigint w' = w_sigint w1 ∧ w_sigterm w' = w_sigterm w1
    ∧ (∀ obj, obj ≠ ai_handler → w_heap w' !! obj = w_heap w1 !! obj)
    ∧ (∀ name, name ≠ "requests_queue" →
         w_heap w' !! ai_handler ≫= lookup name
         = w_heap w1 !! ai_handler ≫= lookup name).
Proof.
  unfold main_wiring, bind. repeat walk_step; try discriminate.
  unfold setattr, ret. simpl. intros [= -> -> -> <- <-].
  eexists _, _, _, _. split; [eassumption|]. simpl. repeat split.
  - intros obj Hobj. by rewrite lookup_insert_ne.
  - intros name Hname. rewrite lookup_insert_eq. simpl.
    rewrite lookup_insert_ne by done.
    by destruct (w_heap w2 !! ai_handler).
Qed.
End MoreMainFacts.

(** ** Concrete runs for Part III *)

Section MoreSampleRuns.
Import Sample.

Lemma missing_requests_queue_witness :
  (∀ settings messages ai_handler w0 bot_handler w1,
     BotHandler_new stubs_without_queue settings messages ai_handler w0
     = (Return bot_handler, w1) →
     type_name stubs_without_queue bot_handler w1 = "BotHandler"
     ∧ w_heap w1 !! bot_handler ≫= lookup "requests_queue" = None)
  ∧ Returned "BotHandler.BotHandler"
      ∈ calls (events_of (main both_files stubs_without_queue fresh))
  ∧ outcome_of (main both_files stubs_without_queue fresh)
    = Raise (Exn "AttributeError" "'BotHandler' object has no attribute 'requests_queue'")
  ∧ calls (events_of (main both_files stubs_without_queue fresh))
    = take 6 startup_sequence.
Proof.
  assert (∀ settings messages ai_handler w0 bot_handler w1,
            BotHandler_new stubs_without_queue settings messages ai_handler w0
            = (Return bot_handler, w1) →
            type_name stubs_without_queue bot_handler w1 = "BotHandler"
            ∧ w_heap w1 !! bot_handler ≫= lookup "requests_queue" = None) as H0.
  { intros settings messages ai_handler w0 bot_handler w1 Hnew. simpl in Hnew.
    injection Hnew as <- <-. split; [reflexivity|].
    unfold new_object. simpl. rewrite lookup_insert_eq. reflexivity. }
  assert (Returned "BotHandler.BotHandler"
            ∈ calls (events_of (main both_files stubs_without_queue fresh))) as H1.
  { apply list_elem_of_In. vm_compute. tauto. }
  split; [exact H0|]. split; [exact H1|].
  exact (missing_requests_queue both_files stubs_without_queue fresh H0 H1).
Defined.

Lemma exit_never_returns_witness :
  w_sigterm (World ∅ default_int_handler SIG_IGN) = SIG_IGN
  ∧ (∀ a, outcome_of (exit_ both_files stubs (VJson PyNone) (VJson PyNone)
                        (World ∅ default_int_handler SIG_IGN)) ≠ Return a)
  ∧ outcome_of (exit_ both_files stubs (VJson PyNone) (VJson PyNone)
                  (World ∅ default_int_handler SIG_IGN)) = SystemExit 0.
Proof.
  split; [reflexivity|].
  destruct (exit_never_returns both_files stubs (VJson PyNone) (VJson PyNone)
              (World ∅ default_int_handler SIG_IGN)) as [Hno H0].
  split; [exact Hno|]. apply H0. right. reflexivity.
Defined.

Lemma argparse_exit_witness :
  outcome_of (logging_setup version_flag fresh) = Return tt
  ∧ env_argv version_flag = ArgvExit 0
  ∧ main version_flag stubs fresh
    = (SystemExit 0, fresh, events_of (logging_setup version_flag fresh)).
Proof.
  split; [reflexivity|]. split; [reflexivity|].
  apply (main_stops_when_argparse_exits version_flag stubs fresh 0); reflexivity.
Defined.

Lemma logging_setup_failure_witness :
  (∀ a, outcome_of (logging_setup unwritable_dir fresh) ≠ Return a)
  ∧ main unwritable_dir stubs fresh = logging_setup unwritable_dir fresh.
Proof.
  assert (∀ a, outcome_of (logging_setup unwritable_dir fresh) ≠ Return a) as Hf.
  { intros a Hx. vm_compute in Hx. discriminate Hx. }
  split; [exact Hf|].
  exact (logging_setup_failure_is_fatal unwritable_dir stubs fresh Hf).
Defined.

Lemma load_order_witness :
  outcome_of (logging_setup both_files fresh) = Return tt
  ∧ env_argv both_files = ArgvOptions None None
  ∧ (∃ settings tl,
        outcome_of (load_json both_files (settings_path both_files None) fresh)
        = Return settings
        ∧ events_of (main both_files stubs fresh)
          = events_of (logging_setup both_files fresh)
            ++ events_of (load_json both_files (settings_path both_files None) fresh)
            ++ events_of (load_json both_files (messages_path both_files None) fresh)
            ++ ECall "Authenticator.Authenticator" [VJson settings] :: tl).
Proof.
  split; [reflexivity|]. split; [reflexivity|].
  apply (main_loads_settings_then_messages both_files stubs fresh None None);
    reflexivity.
Defined.

Lemma rejects_only_null_and_empty_witness :
  (∀ x, repr_float x ≠ "")
  ∧ env_open both_files "settings.json" = inr (Json (PyDict [("queue_max", PyInt 10)]))
  ∧ outcome_of (load_json both_files "settings.json" fresh)
    = Return (PyDict [("queue_max", PyInt 10)]).
Proof.
  assert (∀ x, repr_float x ≠ "") as Hf by (intros x; discriminate).
  split; [exact Hf|]. split; [reflexivity|].
  apply (load_json_rejects_only_null_and_empty both_files "settings.json" fresh
           (PyDict [("queue_max", PyInt 10)]) Hf eq_refl); discriminate.
Defined.

Lemma constructor_arguments_witness :
  env_argv both_files = ArgvOptions None None
  ∧ ECall "BotHandler.BotHandler"
      [VJson (PyDict [("queue_max", PyInt 10)]); VJson messages_doc; VRef 2%positive]
      ∈ events_of (main both_files stubs fresh)
  ∧ ∃ settings messages authenticator ai_handler,
      outcome_of (load_json both_files (settings_path both_files None) fresh)
      = Return settings
      ∧ outcome_of (load_json both_files (messages_path both_files None) fresh)
        = Return messages
      ∧ [VJson (PyDict [("queue_max", PyInt 10)]); VJson messages_doc; VRef 2%positive]
        = [VJson settings; VJson messages; VRef ai_handler]
      ∧ ECall "Authenticator.Authenticator" [VJson settings]
          ∈ events_of (main both_files stubs fresh)
      ∧ ECall "AIHandler.AIHandler" [VJson settings; VRef authenticator]
          ∈ events_of (main both_files stubs fresh)
      ∧ (∀ a, ECall "Authenticator.Authenticator" a
                ∈ events_of (main both_files stubs fresh) →
              a = [VJson settings])
      ∧ (∃ w0 w1, Authenticator_new stubs settings w0 = (Return authenticator, w1))
      ∧ (∃ w0 w1, AIHandler_new stubs settings authenticator w0
                  = (Return ai_handler, w1)).
Proof.
  assert (ECall "BotHandler.BotHandler"
            [VJson (PyDict [("queue_max", PyInt 10)]); VJson messages_doc;
             VRef 2%positive]
            ∈ events_of (main both_files stubs fresh)) as Hin.
  { apply list_elem_of_In. vm_compute. tauto. }
  split; [reflexivity|]. split; [exact Hin|].
  exact (constructor_arguments both_files stubs fresh None None _ eq_refl Hin).
Defined.

Lemma wiring_frame_witness :
  main_wiring both_files stubs fresh
  = (Return (1%positive, 2%positive, 3%positive),
     world_of (main_wiring both_files stubs fresh),
     events_of (main_wiring both_files stubs fresh))
  ∧ ∃ settings messages w0 w1,
      BotHandler_new stubs settings messages 2%positive w0 = (Return 3%positive, w1)
      ∧ w_sigint (world_of (main_wiring both_files stubs fresh)) = w_sigint w1
      ∧ w_sigterm (world_of (main_wiring both_files stubs fresh)) = w_sigterm w1
      ∧ (∀ obj, obj ≠ 2%positive →
           w_heap (world_of (main_wiring both_files stubs fresh)) !! obj
           = w_heap w1 !! obj)
      ∧ (∀ name, name ≠ "requests_queue" →
           w_heap (world_of (main_wiring both_files stubs fresh)) !! 2%positive
             ≫= lookup name
           = w_heap w1 !! 2%positive ≫= lookup name).
Proof.
  split; [reflexivity|].
  apply (wiring_changes_only_the_queue both_files stubs fresh
           1%positive 2%positive 3%positive
           (world_of (main_wiring both_files stubs fresh))
           (events_of (main_wiring both_files stubs fresh))).
  reflexivity.
Defined.

(** Falsy documents are returned, not rejected. *)
Example empty_dict_is_loaded :
  outcome_of (load_json
                (Env (λ _, inr (Json (PyDict []))) (ArgvOptions None None) ∅ 1
                     EmptyString true None None true)
                "settings.json" fresh)
  = Return (PyDict []).
Proof. reflexivity. Qed.

End MoreSampleRuns.
